(** * investor_follow_tracker.scraping.infinite_scroll

    A shallow embedding of [infinite_scroll.py] and the properties of its
    convergence loop ([load_everything]) and of the per-URL driver
    ([scrape]).

    Python [str] values are lists of Unicode code points, Python [int]s are
    [Z].  The browser is a store of open pages indexed by handles, together
    with the trace of the calls made to it (newest first); both are
    threaded through a state-and-exception monad.  The answers of the site
    (counts, texts, what the loading indicator does) are a parameter. *)

From Stdlib Require Import ZArith NArith Lia List Ascii String.
From stdpp Require Import base option list gmap.

Local Open Scope Z_scope.

(** ** Python strings *)

Module PyStr.

(** A [str] is a sequence of code points. *)
Definition pystr := list N.

(** Code points of an ASCII literal. *)
Fixpoint of_string (s : string) : pystr :=
  match s with
  | EmptyString => []
  | String a s' => N_of_ascii a :: of_string s'
  end.

Definition LF : N := 10%N.

(** [str.isspace] on one code point: the characters [str.strip()] removes
    when called without argument. *)
Definition isspace (c : N) : bool :=
  ((9 <=? c) && (c <=? 13) || (28 <=? c) && (c <=? 32)
   || (c =? 133) || (c =? 160) || (c =? 5760)
   || (8192 <=? c) && (c <=? 8202)
   || (c =? 8232) || (c =? 8233) || (c =? 8239) || (c =? 8287)
   || (c =? 12288))%N.

Fixpoint lstrip (s : pystr) : pystr :=
  match s with
  | [] => []
  | c :: s' => if isspace c then lstrip s' else s
  end.

Definition rstrip (s : pystr) : pystr := rev (lstrip (rev s)).

(** [s.strip()] *)
Definition strip (s : pystr) : pystr := rstrip (lstrip s).

(** [s.split(sep)] for a one-character separator; the result is never
    empty ([''.split(sep) == ['']]). *)
Fixpoint split (sep : N) (s : pystr) : list pystr :=
  match s with
  | [] => [[]]
  | c :: s' =>
      if (c =? sep)%N then [] :: split sep s'
      else match split sep s' with
           | seg :: segs => (c :: seg) :: segs
           | [] => [[c]]
           end
  end.

(** [l[0]]: [None] stands for [IndexError]. *)
Definition index0 {A} (l : list A) : option A := head l.

End PyStr.

Import PyStr.

(** [n.strip().split("\n")[0]], the expression of the comprehension that
    builds [clean_names] in [scrape]. *)
Definition clean_name (n : pystr) : pystr :=
  default [] (index0 (split LF (strip n))).

(** The normalisation in the order the specification words it: split on
    newlines, take the first segment, then trim. *)
Definition normalize_spec (raw : pystr) : pystr :=
  strip (default [] (index0 (split LF raw))).

Definition acme_raw : pystr :=
  of_string "Acme Corp" ++ [LF] ++ of_string "Following".

(** ** Exceptions, the browser and the effect monad *)

(** The exceptions the module can see: Playwright's [TimeoutError]
    (imported as [PWTimeout]), Playwright's [Error] for a call on a closed
    page, and [SystemExit] as raised by [sys.exit(msg)]. *)
Inductive exn :=
| PWTimeout
| PWError
| SystemExit (msg : pystr).

Inductive outcome (A : Type) :=
| Ret (a : A)
| Raise (e : exn).
Arguments Ret {A} a.
Arguments Raise {A} e.

(** What the loading indicator [div.artdeco-loader] does after one scroll
    trigger. *)
Inductive loader :=
| LoaderCycles          (* attaches, then detaches *)
| LoaderNeverAttaches   (* the first bounded wait times out *)
| LoaderSticks.         (* attaches, the second bounded wait times out *)

(** The environment's side of one URL: what the rendered document answers,
    as a function of the number of scroll triggers evaluated on it. *)
Record document := {
  doc_loads : bool;                (* [goto] reaches domcontentloaded in time *)
  doc_root_attaches : bool;        (* the list root attaches within 15 s *)
  doc_container : option pystr;    (* result of the scroll-container probe *)
  doc_items : nat -> nat;          (* elements matching ITEM_SELECTOR *)
  doc_loader : nat -> loader;      (* the indicator after the k-th trigger *)
  doc_texts : nat -> list pystr;   (* texts under FULL_SELECTOR, DOM order *)
}.

Definition blank : document :=
  {| doc_loads := true; doc_root_attaches := false; doc_container := None;
     doc_items := fun _ => 0%nat; doc_loader := fun _ => LoaderNeverAttaches;
     doc_texts := fun _ => [] |}.

(** A page object: the document it shows and how often the scroll trigger
    ran on it. *)
Record page_state := { pg_doc : document; pg_triggers : nat }.

Abbreviation handle := nat.

Inductive wait_state := attached | detached.

(** The [print] calls, with their arguments instead of the formatted text. *)
Inductive message :=
| MsgRowsVisible (n : Z)
| MsgContainer (candidate : option pystr)
| MsgStopping (limit : Z)
| MsgCollected (seen : Z)
| MsgScraped (url : pystr) (n : nat)
| MsgWrote (n : nat)
| MsgProcessed (n : nat).

(** A row [[url, name, TODAY]]. *)
Definition Row (date : Type) : Type := pystr * pystr * date.

Section Scraper.

(** Names bound by [from investor_follow_tracker.utils import *]: the run's
    timestamp, the worklist and the sheet sink's cleaning step. *)
Context {date sheet : Type}.
Variable TODAY : date.
Variable START_URLS : list pystr.
Variable clean_rows : list (Row date) -> sheet.

(** The site behind the browser. *)
Variable web : pystr -> document.

Inductive event :=
| EvNewPage (h : handle)
| EvGoto (h : handle) (url : pystr) (timeout : Z)
| EvWaitForSelector (h : handle) (timeout : Z)
| EvCount (h : handle) (n : Z)
| EvProbeContainer (h : handle)
| EvScroll (h : handle)
| EvWaitFor (h : handle) (s : wait_state) (timeout : Z)
| EvWaitForTimeout (h : handle) (ms : Z)
| EvAllInnerTexts (h : handle)
| EvClose (h : handle)
| EvPrint (m : message)
| EvWriteCsv (rows : list (Row date))
| EvPushToGsheet (rows : sheet).

(** The browser context: the calls made so far (newest first), the open
    pages and the next fresh handle. *)
Record world := {
  w_trace : list event;
  w_pages : gmap handle page_state;
  w_next : handle;
}.

Definition M (A : Type) : Type := world -> outcome A * world.

Definition ret {A} (a : A) : M A := fun w => (Ret a, w).

Definition bind {A B} (m : M A) (k : A -> M B) : M B :=
  fun w => match m w with
           | (Ret a, w') => k a w'
           | (Raise e, w') => (Raise e, w')
           end.

Definition raise {A} (e : exn) : M A := fun w => (Raise e, w).

(** [try: m  except PWTimeout: pass] *)
Definition try_except_PWTimeout (m : M unit) : M unit :=
  fun w => match m w with
           | (Raise PWTimeout, w') => (Ret tt, w')
           | r => r
           end.

Declare Scope py_scope.
Delimit Scope py_scope with py.
Notation "x <- m ; k" := (bind m (fun x => k))
  (at level 20, m at level 100, k at level 200, only parsing) : py_scope.
Local Open Scope py_scope.

(** *** Primitive calls *)

Definition emit (e : event) : M unit :=
  fun w => (Ret tt, {| w_trace := e :: w_trace w;
                       w_pages := w_pages w; w_next := w_next w |}).

(** Any call on a page object fails once the page is closed. *)
Definition get_page (h : handle) : M page_state :=
  fun w => match w_pages w !! h with
           | Some pg => (Ret pg, w)
           | None => (Raise PWError, w)
           end.

Definition set_page (h : handle) (pg : page_state) : M unit :=
  fun w => (Ret tt, {| w_trace := w_trace w;
                       w_pages := <[h := pg]> (w_pages w);
                       w_next := w_next w |}).

Definition print (m : message) : M unit := emit (EvPrint m).

(** [context.new_page()] *)
Definition new_page : M handle :=
  fun w => (Ret (w_next w),
            {| w_trace := EvNewPage (w_next w) :: w_trace w;
               w_pages :=
                 <[w_next w := {| pg_doc := blank; pg_triggers := 0 |}]>
                   (w_pages w);
               w_next := S (w_next w) |}).

(** [page.goto(url, wait_until="domcontentloaded", timeout=...)] *)
Definition goto (h : handle) (url : pystr) (timeout : Z) : M unit :=
  _ <- get_page h ;
  _ <- emit (EvGoto h url timeout) ;
  if doc_loads (web url)
  then set_page h {| pg_doc := web url; pg_triggers := 0 |}
  else raise PWTimeout.

(** [page.wait_for_selector("*[id^='profilePagedListComponent']",
    state="attached", timeout=...)] *)
Definition wait_for_selector (h : handle) (timeout : Z) : M unit :=
  pg <- get_page h ;
  _ <- emit (EvWaitForSelector h timeout) ;
  if doc_root_attaches (pg_doc pg) then ret tt else raise PWTimeout.

(** [page.locator(ITEM_SELECTOR).count()] *)
Definition count (h : handle) : M Z :=
  pg <- get_page h ;
  let n := Z.of_nat (doc_items (pg_doc pg) (pg_triggers pg)) in
  _ <- emit (EvCount h n) ;
  ret n.

(** The [page.evaluate] of [scrape]: names the scroll container. *)
Definition probe_container (h : handle) : M (option pystr) :=
  pg <- get_page h ;
  _ <- emit (EvProbeContainer h) ;
  ret (doc_container (pg_doc pg)).

(** The [ctx.evaluate] of [load_everything]: the scroll trigger. *)
Definition scroll (h : handle) : M unit :=
  pg <- get_page h ;
  _ <- emit (EvScroll h) ;
  set_page h {| pg_doc := pg_doc pg; pg_triggers := S (pg_triggers pg) |}.

(** [ctx.locator("div.artdeco-loader").wait_for(state=..., timeout=...)] *)
Definition wait_for (h : handle) (s : wait_state) (timeout : Z) : M unit :=
  pg <- get_page h ;
  _ <- emit (EvWaitFor h s timeout) ;
  match s, doc_loader (pg_doc pg) (pg_triggers pg) with
  | attached, LoaderNeverAttaches => raise PWTimeout
  | detached, LoaderSticks => raise PWTimeout
  | _, _ => ret tt
  end.

(** [ctx.wait_for_timeout(ms)] *)
Definition wait_for_timeout (h : handle) (ms : Z) : M unit :=
  _ <- get_page h ;
  emit (EvWaitForTimeout h ms).

(** [page.locator(FULL_SELECTOR).all_inner_texts()] *)
Definition all_inner_texts (h : handle) : M (list pystr) :=
  pg <- get_page h ;
  _ <- emit (EvAllInnerTexts h) ;
  ret (doc_texts (pg_doc pg) (pg_triggers pg)).

(** [page.close()] *)
Definition close (h : handle) : M unit :=
  _ <- get_page h ;
  fun w => (Ret tt, {| w_trace := EvClose h :: w_trace w;
                       w_pages := delete h (w_pages w);
                       w_next := w_next w |}).

(** [sys.exit(msg)] *)
Definition sys_exit {A} (msg : pystr) : M A := raise (SystemExit msg).

(** [csv.writer(f).writerows(all_rows)] on the module's [.csv] path. The
    encoding of the rows is not modelled: the write is taken to succeed. *)
Definition write_csv (rows : list (Row date)) : M unit :=
  emit (EvWriteCsv rows).

(** [push_to_gsheet(rows_for_sheet)], taken to succeed. *)
Definition push_to_gsheet (rows : sheet) : M unit :=
  emit (EvPushToGsheet rows).

(** *** Loops *)

Inductive ctl (S : Type) :=
| Continue (s : S)
| Break (s : S).
Arguments Continue {S} s.
Arguments Break {S} s.

(** How a [for] loop over a [range] ended. *)
Inductive loop_end := Exhausted | Broke.

(** [for _ in range(n): body], started at index [i]; returns how the loop
    ended, the loop variables and the number of iterations begun. *)
Fixpoint for_range {S} (n : nat) (i : nat) (body : S -> M (ctl S)) (s : S)
  : M (loop_end * S * nat) :=
  match n with
  | O => ret (Exhausted, s, i)
  | Datatypes.S n' =>
      c <- body s ;
      match c with
      | Break s' => ret (Broke, s', Datatypes.S i)
      | Continue s' => for_range n' (Datatypes.S i) body s'
      end
  end.

(** [for x in l: body] with the variables [s] it updates. *)
Fixpoint for_each {A S} (l : list A) (body : A -> S -> M S) (s : S) : M S :=
  match l with
  | [] => ret s
  | x :: l' => s' <- body x s ; for_each l' body s'
  end.

(** *** The module *)

(** Safety knobs. *)
Definition SCROLL_PAUSE_MS : Z := 15000.
Definition STALL_LIMIT : Z := 4.
Definition MAX_SCROLLS : Z := 300.

(** The loop variables of [load_everything]. *)
Record ScrollState := { stalled : Z; seen : Z }.

(** One pass through the body of the [for] loop of [load_everything]. *)
Definition scroll_iteration (ctx : handle) (st : ScrollState)
  : M (ctl ScrollState) :=
  (* 1: scroll one viewport *)
  _ <- scroll ctx ;
  (* 2: wait for the spinner cycle, or time out *)
  _ <- try_except_PWTimeout
         (_ <- wait_for ctx attached 7000 ;
          wait_for ctx detached 7000) ;
  _ <- wait_for_timeout ctx 500 ;
  (* 3: progress check *)
  new_seen <- count ctx ;
  if new_seen =? seen st then
    let stalled' := stalled st + 1 in
    if stalled' >=? STALL_LIMIT then
      _ <- print (MsgStopping STALL_LIMIT) ;
      ret (Break {| stalled := stalled'; seen := seen st |})
    else
      ret (Continue {| stalled := stalled'; seen := seen st |})
  else
    _ <- print (MsgCollected new_seen) ;
    ret (Continue {| stalled := 0; seen := new_seen |}).

Definition initial_state : ScrollState := {| stalled := 0; seen := -1 |}.

(** The loop of [load_everything], returning what Python discards: how
    the loop ended, its variables, and the number of iterations. *)
Definition load_everything_loop (ctx : handle)
  : M (loop_end * ScrollState * nat) :=
  for_range (Z.to_nat MAX_SCROLLS) 0 (scroll_iteration ctx) initial_state.

Definition load_everything (ctx : handle) : M unit :=
  _ <- load_everything_loop ctx ;
  ret tt.

(** The terminal states of the convergence loop. *)
Inductive terminal := STALL_EXIT | CAP_EXIT.

Definition terminal_of (e : loop_end) : terminal :=
  match e with Broke => STALL_EXIT | Exhausted => CAP_EXIT end.

(** The dedented diagnostic passed to [sys.exit]. *)
Definition zero_items_msg : pystr :=
  [LF; 128721%N]
  ++ of_string " ITEM_SELECTOR matches 0 elements on the first screen."
  ++ [LF]
  ++ of_string "Re-inspect the page and update ITEM_SELECTOR / FULL_SELECTOR."
  ++ [LF].

(** The body of [for url in START_URLS] in [scrape]. *)
Definition scrape_url (url : pystr) (all_rows : list (Row date))
  : M (list (Row date)) :=
  page <- new_page ;
  _ <- goto page url 70000 ;
  _ <- wait_for_selector page 15000 ;
  visible <- count page ;
  _ <- print (MsgRowsVisible visible) ;
  candidate <- probe_container page ;
  _ <- print (MsgContainer candidate) ;
  first_batch <- count page ;
  _ <- (if first_batch =? 0 then sys_exit zero_items_msg else ret tt) ;
  _ <- load_everything page ;
  names <- all_inner_texts page ;
  let clean_names := map clean_name names in
  _ <- print (MsgScraped url (length clean_names)) ;
  let run_rows := map (fun name => (url, name, TODAY)) names in
  let all_rows := all_rows ++ run_rows in
  _ <- close page ;
  ret all_rows.

(** [scrape], inside the browser context that [async_playwright], [launch]
    and [new_context] set up. *)
Definition scrape : M unit :=
  all_rows <- for_each START_URLS scrape_url [] ;
  _ <- write_csv all_rows ;
  _ <- print (MsgWrote (length all_rows)) ;
  let rows_for_sheet := clean_rows all_rows in
  _ <- push_to_gsheet rows_for_sheet ;
  print (MsgProcessed (length all_rows)).

(** A fresh browser context. *)
Definition fresh : world := {| w_trace := []; w_pages := ∅; w_next := 0 |}.

End Scraper.

Arguments Continue {S} s.
Arguments Break {S} s.
Arguments event : clear implicits.
Arguments world : clear implicits.

(** ** The convergence loop as a state machine *)

(** The decision of the progress check on a measured count. *)
Definition progress (new_seen : Z) (st : ScrollState) : ctl ScrollState :=
  if new_seen =? seen st then
    if stalled st + 1 >=? STALL_LIMIT
    then Break {| stalled := stalled st + 1; seen := seen st |}
    else Continue {| stalled := stalled st + 1; seen := seen st |}
  else Continue {| stalled := 0; seen := new_seen |}.

(** The count the [j]-th iteration of a loop started on page [pg]
    measures. *)
Definition measured (pg : page_state) (j : nat) : nat :=
  doc_items (pg_doc pg) (pg_triggers pg + j).

(** The loop on the counts alone: [counts j] is what iteration [j]
    measures, [i] iterations are done, [n] are left in the range. *)
Fixpoint run_loop (counts : nat -> nat) (n i : nat) (st : ScrollState)
  : loop_end * ScrollState * nat :=
  match n with
  | O => (Exhausted, st, i)
  | S n' =>
      match progress (Z.of_nat (counts (S i))) st with
      | Break st' => (Broke, st', S i)
      | Continue st' => run_loop counts n' (S i) st'
      end
  end.

(** The Progress Monitor of the specification, which only counts: equal
    to [lastCount] increments [stallCount], different sets [lastCount] and
    resets [stallCount]. *)
Definition observe (new_seen : Z) (st : ScrollState) : ScrollState :=
  if new_seen =? seen st
  then {| stalled := stalled st + 1; seen := seen st |}
  else {| stalled := 0; seen := new_seen |}.

(** The monitor's state after [j] iterations. *)
Fixpoint monitor (counts : nat -> nat) (j : nat) : ScrollState :=
  match j with
  | O => initial_state
  | S j' => observe (Z.of_nat (counts j)) (monitor counts j')
  end.

(** Iterations the loop of [load_everything] performs on a freshly loaded
    document. *)
Definition final_triggers (d : document) : nat :=
  snd (run_loop (doc_items d) (Z.to_nat MAX_SCROLLS) 0 initial_state).

(** ** Reading a trace *)

Section Traces.
Context {date sheet : Type}.
Implicit Types (tr : list (event date sheet)) (e : event date sheet)
  (h : handle) (pg : page_state) (st : ScrollState).

Definition is_scroll (h : handle) e : bool :=
  match e with EvScroll h' => Nat.eqb h' h | _ => false end.

(** Scroll-trigger invocations on page [h]. *)
Definition scrolls_of (h : handle) tr : nat :=
  length (List.filter (is_scroll h) tr).

(** Pages open after a trace (newest event first). *)
Fixpoint open_handles tr : list handle :=
  match tr with
  | [] => []
  | EvClose h :: tr' =>
      List.filter (fun h' => negb (Nat.eqb h' h)) (open_handles tr')
  | EvNewPage h :: tr' => h :: open_handles tr'
  | _ :: tr' => open_handles tr'
  end.

(** At no point of the trace was more than one page open. *)
Fixpoint one_at_a_time tr : bool :=
  match tr with
  | [] => true
  | _ :: tr' => (length (open_handles tr) <=? 1)%nat && one_at_a_time tr'
  end.

Definition is_output e : bool :=
  match e with EvWriteCsv _ | EvPushToGsheet _ => true | _ => false end.

Definition is_new_page e : bool :=
  match e with EvNewPage _ => true | _ => false end.

(** The rows written to the CSV file, if it was written. *)
Fixpoint csv_written tr : option (list (Row date)) :=
  match tr with
  | [] => None
  | EvWriteCsv rows :: _ => Some rows
  | _ :: tr' => csv_written tr'
  end.

(** The page after one more scroll trigger. *)
Definition scrolled pg : page_state :=
  {| pg_doc := pg_doc pg; pg_triggers := S (pg_triggers pg) |}.

(** The calls of the Load-Settle Waiter, newest first. *)
Definition waiter_events h (ld : loader) : list (event date sheet) :=
  match ld with
  | LoaderNeverAttaches => [EvWaitFor h attached 7000]
  | LoaderCycles | LoaderSticks =>
      [EvWaitFor h detached 7000; EvWaitFor h attached 7000]
  end.

Definition progress_events (n : Z) st : list (event date sheet) :=
  if n =? seen st then
    if stalled st + 1 >=? STALL_LIMIT
    then [EvPrint (MsgStopping STALL_LIMIT)] else []
  else [EvPrint (MsgCollected n)].

(** Everything one iteration does to the browser, newest first. *)
Definition iteration_events h pg st : list (event date sheet) :=
  let n := Z.of_nat (measured pg 1) in
  progress_events n st
  ++ [EvCount h n; EvWaitForTimeout h 500]
  ++ waiter_events h (doc_loader (pg_doc pg) (S (pg_triggers pg)))
  ++ [EvScroll h].

(** A call on page [h] that neither opens nor closes it, or a [print]. *)
Definition on_page h e : bool :=
  match e with
  | EvGoto h' _ _ | EvWaitForSelector h' _ | EvCount h' _
  | EvProbeContainer h' | EvScroll h' | EvWaitFor h' _ _
  | EvWaitForTimeout h' _ | EvAllInnerTexts h' => Nat.eqb h' h
  | EvPrint _ => true
  | EvNewPage _ | EvClose _ | EvWriteCsv _ | EvPushToGsheet _ => false
  end.

End Traces.

(** ** Outcomes of a visit and of a run *)

(** How the visit of a document ends. *)
Inductive fate := Completes | Fails (e : exn).

(** The visit of [d] gets past the navigation, the wait for the list root
    and the zero-items guard, and so reaches [load_everything]. *)
Definition reaches_loop (d : document) : Prop :=
  doc_loads d = true /\ doc_root_attaches d = true /\ doc_items d 0 <> 0%nat.

Definition url_fate (d : document) : fate :=
  if doc_loads d then
    if doc_root_attaches d then
      if Z.of_nat (doc_items d 0) =? 0
      then Fails (SystemExit zero_items_msg)
      else Completes
    else Fails PWTimeout
  else Fails PWTimeout.

Section Outcomes.
Context {date sheet : Type}.
Variable TODAY : date.
Variable web : pystr -> document.
Implicit Types (w : world date sheet) (h : handle) (url : pystr)
  (urls : list pystr).

(** The rows one URL contributes. *)
Definition url_rows url : list (Row date) :=
  map (fun name => (url, name, TODAY))
      (doc_texts (web url) (final_triggers (web url))).

(** The rows of a worklist: URL by URL, and in DOM order within one. *)
Definition run_rows urls : list (Row date) :=
  flat_map url_rows urls.

(** Position and exception of the first URL whose visit fails. *)
Fixpoint first_failure urls : option (nat * exn) :=
  match urls with
  | [] => None
  | url :: urls' =>
      match url_fate (web url) with
      | Fails e => Some (0%nat, e)
      | Completes =>
          match first_failure urls' with
          | Some (k, e) => Some (S k, e)
          | None => None
          end
      end
  end.

(** Between two URLs: no page is open, nothing was written, handles were
    handed out in order. *)
Record settled w : Prop := {
  settled_pages : w_pages w = ∅;
  settled_open : open_handles (w_trace w) = [];
  settled_one : one_at_a_time (w_trace w) = true;
  settled_quiet : List.filter is_output (w_trace w) = [];
  settled_new : length (List.filter is_new_page (w_trace w)) = w_next w;
  settled_cap : forall h,
    (scrolls_of h (w_trace w) <= Z.to_nat MAX_SCROLLS)%nat;
  settled_fresh : forall h,
    (w_next w <= h)%nat -> scrolls_of h (w_trace w) = 0%nat;
}.

(** After a visit failed on page [h] with exception [e]. *)
Record stuck w h (e : exn) : Prop := {
  stuck_pages : exists pg, w_pages w = {[ h := pg ]};
  stuck_open : open_handles (w_trace w) = [h];
  stuck_one : one_at_a_time (w_trace w) = true;
  stuck_quiet : List.filter is_output (w_trace w) = [];
  stuck_new : length (List.filter is_new_page (w_trace w)) = S h;
  stuck_cap : forall h',
    (scrolls_of h' (w_trace w) <= Z.to_nat MAX_SCROLLS)%nat;
  stuck_idle : scrolls_of h (w_trace w) = 0%nat;
  stuck_last : forall msg, e = SystemExit msg ->
    head (w_trace w) = Some (EvCount h 0);
}.

End Outcomes.

(** ** Reading a name *)

(** The segment before the first separator. *)
Fixpoint take_until (sep : N) (s : pystr) : pystr :=
  match s with
  | [] => []
  | c :: s' => if (c =? sep)%N then [] else c :: take_until sep s'
  end.

(** The loop variables a pass through the loop body leaves. *)
Definition ctl_state {S} (c : ctl S) : S :=
  match c with Continue s | Break s => s end.

(** ** Concrete pages and runs *)

Module Examples.

Definition today : pystr := of_string "2024-05-01".

Abbreviation browser := (world pystr (list (Row pystr))).

Definition keep (rows : list (Row pystr)) : list (Row pystr) := rows.

(** A profile page that loads and shows the list. *)
Definition listing (items : nat -> nat) (ld : loader) (texts : list pystr)
  : document :=
  {| doc_loads := true; doc_root_attaches := true;
     doc_container := Some (of_string "scaffold-finite-scroll__content");
     doc_items := items; doc_loader := fun _ => ld;
     doc_texts := fun _ => texts |}.

Definition url_A : pystr :=
  of_string "https://www.linkedin.com/in/a/details/interests/".
Definition url_B : pystr :=
  of_string "https://www.linkedin.com/in/b/details/interests/".
Definition url_stale : pystr :=
  of_string "https://www.linkedin.com/in/c/details/interests/".

Definition page_A : document :=
  listing (fun _ => 3%nat) LoaderCycles
    [of_string "A-item1"; of_string "A-item2"; of_string "A-item3"].

Definition page_B : document :=
  listing (fun _ => 2%nat) LoaderNeverAttaches
    [of_string "B-item1"; of_string "B-item2"].

(** Selectors that match nothing. *)
Definition page_stale : document :=
  listing (fun _ => 0%nat) LoaderNeverAttaches [].

(** A page that always shows 7 rows. *)
Definition page_seven : document := listing (fun _ => 7%nat) LoaderCycles [].

(** A list that grows at every scroll. *)
Definition page_endless : document :=
  listing (fun k => S k) LoaderSticks [of_string "Acme Corp"].

(** 3 rows at first, 5 after the second scroll, then no more. *)
Definition page_grows : document :=
  listing (fun k => if (k <=? 1)%nat then 3%nat else 5%nat) LoaderCycles [].

(** 9 rows at first, 4 after one scroll. *)
Definition page_shrinks : document :=
  listing (fun k => if (k =? 0)%nat then 9%nat else 4%nat) LoaderCycles [].

Definition page_acme : document :=
  listing (fun _ => 1%nat) LoaderCycles [acme_raw].

Definition web_AB (url : pystr) : document :=
  if decide (url = url_A) then page_A
  else if decide (url = url_B) then page_B
  else page_stale.

Definition loaded (d : document) : page_state :=
  {| pg_doc := d; pg_triggers := 0 |}.

(** A browser whose only page, with handle 0, shows [d]. *)
Definition showing (d : document) : browser :=
  {| w_trace := []; w_pages := {[ 0%nat := loaded d ]}; w_next := 1 |}.

Definition acme_padded : pystr :=
  of_string "Acme Corp " ++ [LF] ++ of_string "Following".

End Examples.

Import Examples.

(** The events of a trace that are newer than its latest [EvNewPage]. *)
Ltac prefix_before_new tr :=
  lazymatch tr with
  | EvNewPage _ :: _ =>
      lazymatch type of tr with list ?E => constr:(@nil E) end
  | ?e :: ?tr' => let r := prefix_before_new tr' in constr:(e :: r)
  end.

(** ** The events of a loop, of a visit and of a run *)

Section Blocks.
Context {date sheet : Type}.
Variable web : pystr -> document.
Implicit Types (tr : list (event date sheet)) (e : event date sheet)
  (h : handle) (pg : page_state) (st : ScrollState).

(** What a loop of at most [n] iterations does to the browser, newest
    first. *)
Fixpoint loop_events h pg (n : nat) st : list (event date sheet) :=
  match n with
  | O => []
  | S n' =>
      match progress (Z.of_nat (measured pg 1)) st with
      | Break _ => iteration_events h pg st
      | Continue st' =>
          loop_events h (scrolled pg) n' st' ++ iteration_events h pg st
      end
  end.




(** The navigations of a trace, newest first: which page loaded what. *)
Fixpoint gotos tr : list (handle * pystr) :=
  match tr with
  | [] => []
  | EvGoto h url _ :: tr' => (h, url) :: gotos tr'
  | _ :: tr' => gotos tr'
  end.

(** What a visit that reaches the loop does to the browser, newest
    first. *)
Definition visit_events h (url : pystr) : list (event date sheet) :=
  let d := web url in
  let first_batch := Z.of_nat (doc_items d 0) in
  [EvClose h;
   EvPrint (MsgScraped url
              (length (map clean_name (doc_texts d (final_triggers d)))));
   EvAllInnerTexts h]
  ++ loop_events h {| pg_doc := d; pg_triggers := 0 |}
       (Z.to_nat MAX_SCROLLS) initial_state
  ++ [EvCount h first_batch;
      EvPrint (MsgContainer (doc_container d));
      EvProbeContainer h;
      EvPrint (MsgRowsVisible first_batch);
      EvCount h first_batch;
      EvWaitForSelector h 15000;
      EvGoto h url 70000;
      EvNewPage h].

(** The visits of a worklist, the first on page [h]. *)
Fixpoint run_events (urls : list pystr) h : list (event date sheet) :=
  match urls with
  | [] => []
  | url :: urls' => run_events urls' (S h) ++ visit_events h url
  end.

End Blocks.

(** ** The scripts evaluated in the page *)

Module Dom.

(** Computed values of [overflow-y]. *)
Inductive overflow := Visible | Hidden | Clip | Scroll | Auto.

(** An element with what the scripts read of it; [el_node] is its
    identity, [el_parentElement] is [None] for [null]. *)
Inductive element := Element {
  el_node : nat;
  el_id : pystr;
  el_className : pystr;
  el_overflowY : overflow;
  el_scrollHeight : Z;
  el_clientHeight : Z;
  el_parentElement : option element;
}.

Record dom := {
  documentElement : nat;
  scrollingElement : option element;
  elements : list element;          (* in document order *)
}.

Fixpoint starts_with (prefix s : pystr) : bool :=
  match prefix, s with
  | [], _ => true
  | _ :: _, [] => false
  | a :: prefix', b :: s' => (a =? b)%N && starts_with prefix' s'
  end.

(** [document.querySelector('*[id^="profilePagedListComponent"]')] *)
Definition querySelector_row (doc : dom) : option element :=
  List.find (fun el => starts_with (of_string "profilePagedListComponent")
                                   (el_id el))
            (elements doc).

(** [(overflowY === 'auto' || overflowY === 'scroll') &&
    el.scrollHeight > el.clientHeight] *)
Definition can_scroll (el : element) : bool :=
  match el_overflowY el with
  | Auto | Scroll => el_scrollHeight el >? el_clientHeight el
  | _ => false
  end.

(** [findScrollable] of the scroll trigger. *)
Fixpoint findScrollable (doc : dom) (el : element) : option element :=
  if Nat.eqb (el_node el) (documentElement doc) then scrollingElement doc
  else if can_scroll el then Some el
  else match el_parentElement el with
       | Some parent => findScrollable doc parent
       | None => scrollingElement doc
       end.

(** What the scroll trigger does: nothing without a row, a
    [scrollBy({top, behavior: 'instant'})] on the scroll box, or a
    [TypeError] when the box is [null]. *)
Inductive trigger_result :=
| NoRow
| ScrollBy (box : element) (top : Z)
| TypeError.

(** The script of [ctx.evaluate] in [load_everything]. *)
Definition scroll_trigger (doc : dom) : trigger_result :=
  match querySelector_row doc with
  | None => NoRow
  | Some firstRow =>
      match findScrollable doc firstRow with
      | Some scrollBox => ScrollBy scrollBox (el_clientHeight scrollBox)
      | None => TypeError
      end
  end.

(** [a || b] on strings: the empty string is falsy. *)
Definition js_or (a b : pystr) : pystr :=
  match a with [] => b | _ :: _ => a end.

(** [el.className || el.id || '<<anonymous>>'] *)
Definition display_name (el : element) : pystr :=
  js_or (js_or (el_className el) (el_id el)) (of_string "<<anonymous>>").

(** The [while] loop of the probe in [scrape]. *)
Fixpoint probe_from (doc : dom) (el : element) : pystr :=
  if Nat.eqb (el_node el) (documentElement doc) then of_string "document"
  else if can_scroll el then display_name el
  else match el_parentElement el with
       | Some parent => probe_from doc parent
       | None => of_string "document"
       end.

(** The script of [page.evaluate] in [scrape]; [None] is [null]. *)
Definition probe (doc : dom) : option pystr :=
  match querySelector_row doc with
  | None => None
  | Some row => Some (probe_from doc row)
  end.

(** The element and its ancestors below the document element, nearest
    first. *)
Fixpoint chain (doc : dom) (el : element) : list element :=
  if Nat.eqb (el_node el) (documentElement doc) then []
  else el :: match el_parentElement el with
             | Some parent => chain doc parent
             | None => []
             end.

End Dom.

(** ** More concrete pages *)

Module Fixtures.

Import Dom.

(** ITEM_SELECTOR matches three cards, FULL_SELECTOR matches nothing. *)
Definition page_nameless : document :=
  listing (fun _ => 3%nat) LoaderCycles [].

(** A page whose navigation times out. *)
Definition page_unreachable : document :=
  {| doc_loads := false; doc_root_attaches := false; doc_container := None;
     doc_items := fun _ => 0%nat; doc_loader := fun _ => LoaderNeverAttaches;
     doc_texts := fun _ => [] |}.

(** A page that loads without the list root. *)
Definition page_rootless : document :=
  {| doc_loads := true; doc_root_attaches := false; doc_container := None;
     doc_items := fun _ => 0%nat; doc_loader := fun _ => LoaderNeverAttaches;
     doc_texts := fun _ => [] |}.

Definition url_C : pystr :=
  of_string "https://www.linkedin.com/in/d/details/interests/".

Definition web_ABC (url : pystr) : document :=
  if decide (url = url_A) then page_A
  else if decide (url = url_B) then page_B
  else if decide (url = url_C) then page_rootless
  else page_unreachable.

Definition el_html : element :=
  Element 0 [] [] Visible 900 900 None.

Definition el_body : element :=
  Element 1 [] [] Visible 5200 900 (Some el_html).

Definition el_main : element :=
  Element 2 [] (of_string "scaffold-finite-scroll__content") Auto 5000 800
          (Some el_body).

Definition el_section : element :=
  Element 3 [] (of_string "artdeco-card") Auto 600 600 (Some el_main).

Definition el_row : element :=
  Element 4 (of_string "profilePagedListComponent-X-COMPANIES-INTERESTS-0")
          [] Visible 80 80 (Some el_section).

Definition profile_dom : dom :=
  {| documentElement := 0; scrollingElement := Some el_html;
     elements := [el_html; el_body; el_main; el_section; el_row] |}.

End Fixtures.

Import Fixtures.

(** ** Leaving the browser *)

Section Playwright.
Context {date sheet : Type}.
Variable TODAY : date.
Variable START_URLS : list pystr.
Variable clean_rows : list (Row date) -> sheet.
Variable web : pystr -> document.

(** [async with async_playwright() as p: body]. Whether [body] returns or
    raises, leaving the block stops Playwright, which disposes of the
    browser it launched and with it of every page still open; an
    exception of [body] goes on to the caller. *)
Definition async_with_playwright {A} (body : M (date:=date) (sheet:=sheet) A)
  : M A :=
  fun w => match body w with
           | (r, w') => (r, {| w_trace := w_trace w';
                               w_pages := ∅;
                               w_next := w_next w' |})
           end.

(** The coroutine [scrape] as a whole: its body inside the [async with]
    block. *)
Definition scrape_in_playwright : M unit :=
  async_with_playwright (scrape TODAY START_URLS clean_rows web).

(** A page is opened only while no page is open. *)
Fixpoint opens_one_by_one (tr : list (event date sheet)) : bool :=
  match tr with
  | [] => true
  | EvNewPage _ :: tr' =>
      (length (open_handles tr') =? 0)%nat && opens_one_by_one tr'
  | _ :: tr' => opens_one_by_one tr'
  end.

End Playwright.

(** ** One iteration of the loop *)

Section Iteration.
Context {date sheet : Type}.
Implicit Types (w : world date sheet) (h : handle) (pg : page_state)
  (st : ScrollState).

Lemma measured_1 pg :
  measured pg 1 = doc_items (pg_doc pg) (S (pg_triggers pg)).
Proof. unfold measured. f_equal. lia. Qed.

Lemma scroll_iteration_eq h st w pg :
  w_pages w !! h = Some pg ->
  scroll_iteration h st w =
    (Ret (progress (Z.of_nat (measured pg 1)) st),
     {| w_trace := iteration_events h pg st ++ w_trace w;
        w_pages := <[h := scrolled pg]> (w_pages w);
        w_next := w_next w |}).
Proof.
  intros Hpg.
  unfold iteration_events, progress_events, progress. rewrite measured_1.
  unfold scroll_iteration, scroll, try_except_PWTimeout, wait_for,
    wait_for_timeout, count, print, bind, get_page, emit, set_page, ret, raise.
  cbn. rewrite Hpg. cbn. rewrite lookup_insert_eq. cbn.
  destruct (doc_loader (pg_doc pg) (S (pg_triggers pg))) eqn:Hld; cbn;
    repeat (rewrite ?lookup_insert_eq, ?insert_insert_eq, ?Hld; cbn);
    destruct (Z.of_nat (doc_items (pg_doc pg) (S (pg_triggers pg))) =? seen st);
    try destruct (stalled st + 1 >=? STALL_LIMIT); reflexivity.
Qed.

End Iteration.

(** ** The loop against its state machine *)

Lemma run_loop_bounds counts n i st :
  (i <= snd (run_loop counts n i st) <= i + n)%nat.
Proof.
  revert i st. induction n as [|n IH]; intros i st; cbn.
  - lia.
  - destruct (progress _ st) as [st'|st']; cbn.
    + specialize (IH (S i) st'). lia.
    + lia.
Qed.

Lemma run_loop_ext counts counts' n i st :
  (forall j, counts (i + j)%nat = counts' (i + j)%nat) ->
  run_loop counts n i st = run_loop counts' n i st.
Proof.
  revert i st. induction n as [|n IH]; intros i st Hc; cbn; [reflexivity|].
  replace (S i) with (i + 1)%nat by lia. rewrite Hc.
  destruct (progress _ st); [|reflexivity].
  replace (i + 1)%nat with (S i) by lia.
  apply IH. intros j. replace (S i + j)%nat with (i + S j)%nat by lia. apply Hc.
Qed.

Section Loop.
Context {date sheet : Type}.
Implicit Types (w : world date sheet) (h : handle) (pg : page_state)
  (st : ScrollState) (e : event date sheet) (tr : list (event date sheet)).

Lemma scrolls_of_app h tr1 tr2 :
  scrolls_of h (tr1 ++ tr2) = (scrolls_of h tr1 + scrolls_of h tr2)%nat.
Proof. unfold scrolls_of. rewrite List.filter_app, length_app. reflexivity. Qed.

Lemma iteration_events_on_page h pg st :
  forallb (on_page h)
    (iteration_events (date:=date) (sheet:=sheet) h pg st) = true.
Proof.
  unfold iteration_events, progress_events, waiter_events.
  destruct (doc_loader _ _), (_ =? _); try destruct (_ >=? _);
    cbn; rewrite ?Nat.eqb_refl; reflexivity.
Qed.

Lemma iteration_events_scrolls h pg st :
  scrolls_of h (iteration_events (date:=date) (sheet:=sheet) h pg st) = 1%nat.
Proof.
  unfold scrolls_of, iteration_events, progress_events, waiter_events.
  destruct (doc_loader _ _), (_ =? _); try destruct (_ >=? _);
    cbn; rewrite ?Nat.eqb_refl; reflexivity.
Qed.

(** The loop computes [run_loop] on the counts of the page, leaves every
    other page alone and triggers the scroll once per iteration. *)
Lemma for_range_eq h counts n : forall i st w pg,
  w_pages w !! h = Some pg ->
  (forall j, counts (i + j)%nat = measured pg j) ->
  exists evs pg',
    for_range n i (scroll_iteration h) st w =
      (Ret (run_loop counts n i st),
       {| w_trace := evs ++ w_trace w;
          w_pages := <[h := pg']> (w_pages w);
          w_next := w_next w |})
    /\ pg_doc pg' = pg_doc pg
    /\ pg_triggers pg' =
         (pg_triggers pg + (snd (run_loop counts n i st) - i))%nat
    /\ forallb (on_page h) evs = true
    /\ scrolls_of h evs = (snd (run_loop counts n i st) - i)%nat.
Proof.
  induction n as [|n IH]; intros i st w pg Hpg Hc.
  - exists [], pg. cbn. rewrite insert_id by exact Hpg.
    destruct w; cbn. repeat split; try reflexivity; lia.
  - cbn [for_range run_loop]. unfold bind at 1.
    rewrite (scroll_iteration_eq h st w pg Hpg).
    replace (Z.of_nat (measured pg 1)) with (Z.of_nat (counts (S i)))
      by (f_equal; rewrite <- Hc; f_equal; lia).
    destruct (progress _ st) as [st'|st'].
    + cbv beta iota.
      match goal with
      | |- context [for_range n (S i) _ st' ?w1] =>
          destruct (IH (S i) st' w1 (scrolled pg))
            as (evs & pg' & Heq & Hd & Ht & Hon & Hs)
      end.
      { cbn. apply lookup_insert_eq. }
      { intros j. replace (S i + j)%nat with (i + S j)%nat by lia.
        rewrite Hc. unfold measured, scrolled. cbn. f_equal. lia. }
      pose proof (run_loop_bounds counts n (S i) st') as Hb.
      exists (evs ++ iteration_events h pg st), pg'.
      rewrite Heq. cbn. rewrite insert_insert_eq, <- app_assoc.
      repeat split; try assumption.
      * rewrite Ht. cbn. lia.
      * rewrite forallb_app, Hon. apply iteration_events_on_page.
      * rewrite scrolls_of_app, Hs, iteration_events_scrolls. lia.
    + exists (iteration_events h pg st), (scrolled pg). cbn.
      repeat split.
      * lia.
      * apply iteration_events_on_page.
      * rewrite iteration_events_scrolls. lia.
Qed.

End Loop.

(** ** The state machine against the Progress Monitor *)

Lemma progress_observe c st :
  progress c st =
    if stalled (observe c st) >=? STALL_LIMIT
    then Break (observe c st) else Continue (observe c st).
Proof.
  unfold progress, observe. destruct (c =? seen st); cbn; reflexivity.
Qed.

(** The loop stops at the first iteration at which the monitor's stall
    counter has reached the limit. *)
Lemma run_loop_stall counts n : forall i m,
  (i < m <= i + n)%nat ->
  (forall j, (i < j < m)%nat -> stalled (monitor counts j) < STALL_LIMIT) ->
  stalled (monitor counts m) >= STALL_LIMIT ->
  run_loop counts n i (monitor counts i) = (Broke, monitor counts m, m).
Proof.
  induction n as [|n IH]; intros i m Hm Hlt Hge; [lia|].
  cbn [run_loop]. rewrite progress_observe.
  change (observe _ (monitor counts i)) with (monitor counts (S i)).
  destruct (Nat.eq_dec m (S i)) as [->|Hne].
  - destruct (Z.geb_spec (stalled (monitor counts (S i))) STALL_LIMIT);
      [reflexivity | lia].
  - destruct (Z.geb_spec (stalled (monitor counts (S i))) STALL_LIMIT)
      as [Hs|_].
    + specialize (Hlt (S i)). lia.
    + apply IH; [lia | intros j Hj; apply Hlt; lia | exact Hge].
Qed.

(** It runs through the whole range when that never happens. *)
Lemma run_loop_cap counts n : forall i,
  (forall j, (i < j <= i + n)%nat ->
             stalled (monitor counts j) < STALL_LIMIT) ->
  run_loop counts n i (monitor counts i)
  = (Exhausted, monitor counts (i + n), (i + n)%nat).
Proof.
  induction n as [|n IH]; intros i Hlt; cbn [run_loop].
  - rewrite Nat.add_0_r. reflexivity.
  - rewrite progress_observe.
    change (observe _ (monitor counts i)) with (monitor counts (S i)).
    destruct (Z.geb_spec (stalled (monitor counts (S i))) STALL_LIMIT)
      as [Hs|_].
    + specialize (Hlt (S i)). lia.
    + replace (i + S n)%nat with (S i + n)%nat by lia.
      apply IH. intros j Hj. apply Hlt. lia.
Qed.

(** While every count differs from the one before, the monitor never
    stalls. *)
Lemma monitor_changing counts :
  (forall j, counts (S (S j)) <> counts (S j)) ->
  forall j, monitor counts (S j)
            = {| stalled := 0; seen := Z.of_nat (counts (S j)) |}.
Proof.
  intros Hch. induction j as [|j IH].
  - cbn. unfold observe. cbn [seen initial_state].
    destruct (Z.eqb_spec (Z.of_nat (counts 1%nat)) (-1)); [lia | reflexivity].
  - change (monitor counts (S (S j)))
      with (observe (Z.of_nat (counts (S (S j)))) (monitor counts (S j))).
    rewrite IH. unfold observe. cbn [seen stalled].
    destruct (Z.eqb_spec (Z.of_nat (counts (S (S j)))) (Z.of_nat (counts (S j))))
      as [Heq|_]; [|reflexivity].
    apply Nat2Z.inj in Heq. destruct (Hch j Heq).
Qed.

Lemma monitor_const (c : nat) (j : nat) :
  monitor (fun _ => c) (S j) = {| stalled := Z.of_nat j; seen := Z.of_nat c |}.
Proof.
  induction j as [|j IH].
  - cbn. unfold observe. cbn [seen initial_state].
    destruct (Z.eqb_spec (Z.of_nat c) (-1)); [lia | reflexivity].
  - change (monitor (fun _ => c) (S (S j)))
      with (observe (Z.of_nat c) (monitor (fun _ => c) (S j))).
    rewrite IH. unfold observe. cbn [seen stalled].
    rewrite Z.eqb_refl. f_equal. lia.
Qed.

(** The stall counter never goes below zero. *)
Lemma monitor_stalled_nonneg counts j : 0 <= stalled (monitor counts j).
Proof.
  induction j as [|j IH]; cbn; [lia|].
  unfold observe. destruct (_ =? _); cbn; lia.
Qed.

(** ** One URL of the worklist *)

Section Visit.
Context {date sheet : Type}.
Variable TODAY : date.
Variable web : pystr -> document.
Implicit Types (w : world date sheet) (h : handle) (url : pystr)
  (rows : list (Row date)).

Lemma load_everything_eq h w pg :
  w_pages w !! h = Some pg ->
  exists evs pg',
    load_everything h w =
      (Ret tt, {| w_trace := evs ++ w_trace w;
                  w_pages := <[h := pg']> (w_pages w);
                  w_next := w_next w |})
    /\ pg_doc pg' = pg_doc pg
    /\ pg_triggers pg' =
         (pg_triggers pg
          + snd (run_loop (measured pg) (Z.to_nat MAX_SCROLLS) 0
                          initial_state))%nat
    /\ forallb (on_page h) evs = true
    /\ scrolls_of h evs
       = snd (run_loop (measured pg) (Z.to_nat MAX_SCROLLS) 0 initial_state).
Proof.
  intros Hpg.
  destruct (for_range_eq h (measured pg) (Z.to_nat MAX_SCROLLS) 0
              initial_state w pg Hpg) as (evs & pg' & Heq & Hd & Ht & Hon & Hs).
  { intros j. reflexivity. }
  exists evs, pg'. unfold load_everything, load_everything_loop, bind.
  rewrite Heq. cbn [ret]. rewrite Nat.sub_0_r in Ht, Hs. auto.
Qed.

Lemma scrape_url_completes url rows w :
  w_pages w = ∅ ->
  url_fate (web url) = Completes ->
  exists mid,
    forallb (on_page (w_next w)) mid = true
    /\ scrolls_of (w_next w) mid = final_triggers (web url)
    /\ scrape_url TODAY web url rows w =
         (Ret (rows ++ url_rows TODAY web url),
          {| w_trace :=
               EvClose (w_next w) :: mid ++ EvNewPage (w_next w) :: w_trace w;
             w_pages := ∅;
             w_next := S (w_next w) |}).
Proof.
  intros Hempty Hfate. unfold url_fate in Hfate.
  destruct (doc_loads (web url)) eqn:Hl; [|discriminate].
  destruct (doc_root_attaches (web url)) eqn:Hr; [|discriminate].
  destruct (Z.of_nat (doc_items (web url) 0) =? 0) eqn:Hz; [discriminate|].
  unfold scrape_url, goto, wait_for_selector, count, probe_container,
    all_inner_texts, close, print, sys_exit, bind, get_page, emit, set_page,
    ret, raise, new_page.
  cbn -[load_everything insert lookup delete].
  repeat (rewrite ?lookup_insert_eq, ?insert_insert_eq, ?Hl, ?Hr, ?Hz;
          cbn -[load_everything insert lookup delete]).
  match goal with
  | |- context [load_everything (w_next w) ?w1] =>
      destruct (load_everything_eq (w_next w) w1
                  {| pg_doc := web url; pg_triggers := 0 |})
        as (evs & pg' & Heq & Hd & Ht & Hon & Hs)
  end.
  { cbn -[insert lookup]. apply lookup_insert_eq. }
  rewrite Heq. cbn -[load_everything insert lookup delete].
  repeat (rewrite ?lookup_insert_eq, ?insert_insert_eq;
          cbn -[load_everything insert lookup delete]).
  rewrite delete_insert_eq, Hempty, delete_empty.
  cbn in Ht, Hd. change (measured _) with (doc_items (web url)) in Ht, Hs.
  fold (final_triggers (web url)) in Ht, Hs.
  rewrite Hd, Ht. fold (url_rows TODAY web url).
  match goal with
  | |- context [EvClose _ :: ?a :: ?b :: evs ++ ?c1 :: ?c2 :: ?c3 :: ?c4
                :: ?c5 :: ?c6 :: ?c7 :: EvNewPage _ :: _] =>
      exists (a :: b :: evs ++ [c1; c2; c3; c4; c5; c6; c7])
  end.
  split; [|split].
  - cbn. rewrite forallb_app, Hon. cbn. rewrite Nat.eqb_refl. reflexivity.
  - change (?a :: ?b :: evs ++ ?l) with ([a; b] ++ evs ++ l).
    rewrite !scrolls_of_app, Hs. cbn. lia.
  - cbn. rewrite <- app_assoc. reflexivity.
Qed.

Lemma scrape_url_fails url rows w e :
  w_pages w = ∅ ->
  url_fate (web url) = Fails e ->
  exists mid pg,
    forallb (on_page (w_next w)) mid = true
    /\ scrolls_of (w_next w) mid = 0%nat
    /\ (forall msg, e = SystemExit msg ->
        head mid = Some (EvCount (w_next w) 0))
    /\ scrape_url TODAY web url rows w =
         (Raise e,
          {| w_trace := mid ++ EvNewPage (w_next w) :: w_trace w;
             w_pages := {[ w_next w := pg ]};
             w_next := S (w_next w) |}).
Proof.
  intros Hempty Hfate. unfold url_fate in Hfate.
  unfold scrape_url, goto, wait_for_selector, count, probe_container,
    all_inner_texts, close, print, sys_exit, bind, get_page, emit, set_page,
    ret, raise, new_page.
  cbn -[load_everything insert lookup delete].
  destruct (doc_loads (web url)) eqn:Hl;
    [destruct (doc_root_attaches (web url)) eqn:Hr;
     [destruct (Z.of_nat (doc_items (web url) 0) =? 0) eqn:Hz;
      [|discriminate]|]|];
    injection Hfate as <-;
    repeat (rewrite ?lookup_insert_eq, ?insert_insert_eq, ?Hl, ?Hr, ?Hz;
            cbn -[load_everything insert lookup delete]);
    rewrite Hempty, insert_empty.
  all: match goal with
       | |- context [{| w_trace := ?tr; w_pages := _; w_next := _ |}] =>
           let mid := prefix_before_new tr in eexists mid, _
       end.
  all: cbn; rewrite !Nat.eqb_refl; repeat split; try discriminate.
  intros _ _. apply Z.eqb_eq in Hz. rewrite Hz. reflexivity.
Qed.

End Visit.

(** ** Traces of page activity *)

Section TraceLemmas.
Context {date sheet : Type}.
Implicit Types (h : handle) (e : event date sheet)
  (tr mid : list (event date sheet)).

Lemma open_handles_on_page h mid tr :
  forallb (on_page h) mid = true ->
  open_handles (mid ++ tr) = open_handles tr.
Proof.
  induction mid as [|e mid IH]; cbn; [reflexivity|].
  intros [He Hmid]%andb_prop. destruct e; cbn in He; try discriminate; auto.
Qed.

Lemma one_at_a_time_head tr :
  (length (open_handles tr) <=? 1)%nat && one_at_a_time tr = one_at_a_time tr.
Proof.
  destruct tr as [|e tr]; [reflexivity|]. cbn [one_at_a_time].
  destruct (_ <=? _)%nat; reflexivity.
Qed.

Lemma one_at_a_time_on_page h mid tr :
  forallb (on_page h) mid = true ->
  one_at_a_time (mid ++ tr) = one_at_a_time tr.
Proof.
  induction mid as [|e mid IH]; [reflexivity|].
  intros Hall. pose proof Hall as [He Hmid]%andb_prop.
  change ((e :: mid) ++ tr) with (e :: (mid ++ tr)).
  cbn [one_at_a_time]. rewrite (IH Hmid).
  change (e :: (mid ++ tr)) with ((e :: mid) ++ tr).
  rewrite (open_handles_on_page h _ _ Hall).
  apply one_at_a_time_head.
Qed.

Lemma filter_on_page (f : event date sheet -> bool) h mid :
  (forall e, on_page h e = true -> f e = false) ->
  forallb (on_page h) mid = true ->
  List.filter f mid = [].
Proof.
  intros Hf. induction mid as [|e mid IH]; cbn; [reflexivity|].
  intros [He Hmid]%andb_prop. rewrite (Hf e He). auto.
Qed.

Lemma on_page_not_output h e : on_page h e = true -> is_output e = false.
Proof. destruct e; cbn; congruence. Qed.

Lemma on_page_not_new h e : on_page h e = true -> is_new_page e = false.
Proof. destruct e; cbn; congruence. Qed.

Lemma on_page_not_scroll h h' e :
  h' <> h -> on_page h e = true -> is_scroll h' e = false.
Proof.
  intros Hne. destruct e; cbn; try congruence.
  intros ->%Nat.eqb_eq. apply Nat.eqb_neq. congruence.
Qed.

Lemma scrolls_of_on_page h h' mid :
  h' <> h -> forallb (on_page h) mid = true -> scrolls_of h' mid = 0%nat.
Proof.
  intros Hne Hmid. unfold scrolls_of.
  rewrite (filter_on_page _ h); [reflexivity | | exact Hmid].
  intros e. apply on_page_not_scroll. exact Hne.
Qed.

Lemma csv_written_on_page h mid tr :
  forallb (on_page h) mid = true ->
  csv_written (mid ++ tr) = csv_written tr.
Proof.
  induction mid as [|e mid IH]; cbn; [reflexivity|].
  intros [He Hmid]%andb_prop. destruct e; cbn in He; try discriminate; auto.
Qed.

Lemma csv_written_no_output tr :
  List.filter is_output tr = [] -> csv_written tr = None.
Proof.
  induction tr as [|e tr IH]; cbn; [reflexivity|].
  destruct e; cbn; try discriminate; auto.
Qed.

End TraceLemmas.

(** ** The whole run *)

Lemma final_triggers_le d : (final_triggers d <= Z.to_nat MAX_SCROLLS)%nat.
Proof.
  unfold final_triggers.
  pose proof (run_loop_bounds (doc_items d) (Z.to_nat MAX_SCROLLS) 0 initial_state).
  lia.
Qed.

Section Run.
Context {date sheet : Type}.
Variable TODAY : date.
Variable clean_rows : list (Row date) -> sheet.
Variable web : pystr -> document.
Implicit Types (w : world date sheet) (h : handle) (url : pystr)
  (urls : list pystr) (rows : list (Row date)).

Lemma settled_fresh_world : settled (fresh : world date sheet).
Proof. split; intros; reflexivity || (cbn; lia). Qed.

Lemma scrolls_of_block h h' (mid tr : list (event date sheet)) :
  scrolls_of h' (mid ++ EvNewPage h :: tr)
  = (scrolls_of h' mid + scrolls_of h' tr)%nat.
Proof. rewrite scrolls_of_app. reflexivity. Qed.

Lemma scrolls_of_closed h h' (tr : list (event date sheet)) :
  scrolls_of h' (EvClose h :: tr) = scrolls_of h' tr.
Proof. reflexivity. Qed.

Lemma visit_completes url rows w :
  settled w ->
  url_fate (web url) = Completes ->
  exists w',
    scrape_url TODAY web url rows w = (Ret (rows ++ url_rows TODAY web url), w')
    /\ settled w' /\ w_next w' = S (w_next w).
Proof.
  intros [Hp Ho H1 Hq Hn Hc Hf] Hfate.
  destruct (scrape_url_completes TODAY web url rows w Hp Hfate)
    as (mid & Hmid & Hs & Heq).
  eexists. split; [exact Heq|]. split; [|reflexivity].
  split; cbn [w_trace w_pages w_next].
  - reflexivity.
  - cbn. rewrite (open_handles_on_page _ _ _ Hmid). cbn. rewrite Ho. cbn.
    rewrite Nat.eqb_refl. reflexivity.
  - cbn [one_at_a_time open_handles].
    rewrite (open_handles_on_page _ _ _ Hmid), (one_at_a_time_on_page _ _ _ Hmid).
    cbn. rewrite Ho, H1. cbn. rewrite Nat.eqb_refl. reflexivity.
  - cbn. rewrite List.filter_app.
    rewrite (filter_on_page _ _ _ (on_page_not_output _) Hmid). cbn. exact Hq.
  - cbn. rewrite List.filter_app.
    rewrite (filter_on_page _ _ _ (on_page_not_new _) Hmid). cbn. lia.
  - intros h.
    rewrite scrolls_of_closed, scrolls_of_block.
    destruct (Nat.eq_dec h (w_next w)) as [->|Hne].
    + rewrite Hs, Hf by lia. pose proof (final_triggers_le (web url)). lia.
    + rewrite (scrolls_of_on_page _ _ _ Hne Hmid). apply Hc.
  - intros h Hh.
    rewrite scrolls_of_closed, scrolls_of_block.
    rewrite (scrolls_of_on_page (w_next w) h) by (auto; lia).
    apply Hf. lia.
Qed.

Lemma visit_fails url rows w e :
  settled w ->
  url_fate (web url) = Fails e ->
  exists w',
    scrape_url TODAY web url rows w = (Raise e, w') /\ stuck w' (w_next w) e.
Proof.
  intros [Hp Ho H1 Hq Hn Hc Hf] Hfate.
  destruct (scrape_url_fails TODAY web url rows w e Hp Hfate)
    as (mid & pg & Hmid & Hs & Hlast & Heq).
  eexists. split; [exact Heq|].
  split; cbn [w_trace w_pages w_next].
  - eauto.
  - rewrite (open_handles_on_page _ _ _ Hmid). cbn. rewrite Ho. reflexivity.
  - rewrite (one_at_a_time_on_page _ _ _ Hmid). cbn. rewrite Ho, H1. reflexivity.
  - rewrite List.filter_app.
    rewrite (filter_on_page _ _ _ (on_page_not_output _) Hmid). cbn. exact Hq.
  - rewrite List.filter_app.
    rewrite (filter_on_page _ _ _ (on_page_not_new _) Hmid). cbn. lia.
  - intros h.
    rewrite scrolls_of_block.
    destruct (Nat.eq_dec h (w_next w)) as [->|Hne].
    + rewrite Hs, Hf by lia. lia.
    + rewrite (scrolls_of_on_page _ _ _ Hne Hmid). apply Hc.
  - rewrite scrolls_of_block.
    rewrite Hs, Hf by lia. reflexivity.
  - intros msg Hmsg. specialize (Hlast msg Hmsg).
    destruct mid; [discriminate | exact Hlast].
Qed.

(** The loop over the worklist stops at the first failing URL. *)
Lemma for_each_run urls : forall rows w,
  settled w ->
  match first_failure web urls with
  | None =>
      exists w',
        for_each urls (scrape_url TODAY web) rows w
        = (Ret (rows ++ run_rows TODAY web urls), w')
        /\ settled w' /\ w_next w' = (w_next w + length urls)%nat
  | Some (k, e) =>
      exists w',
        for_each urls (scrape_url TODAY web) rows w = (Raise e, w')
        /\ stuck w' (w_next w + k) e
  end.
Proof.
  induction urls as [|url urls IH]; intros rows w Hw.
  - cbn. exists w. rewrite app_nil_r, Nat.add_0_r. auto.
  - cbn [first_failure for_each]. unfold bind.
    destruct (url_fate (web url)) as [|e] eqn:Hfate.
    + destruct (visit_completes url rows w Hw Hfate) as (w1 & Heq & Hw1 & Hn1).
      rewrite Heq. specialize (IH (rows ++ url_rows TODAY web url) w1 Hw1).
      destruct (first_failure web urls) as [[k e]|].
      * destruct IH as (w' & Heq' & Hst). exists w'. split; [exact Heq'|].
        rewrite Hn1 in Hst. replace (w_next w + S k)%nat with (S (w_next w) + k)%nat by lia.
        exact Hst.
      * destruct IH as (w' & Heq' & Hw' & Hn'). exists w'.
        rewrite Heq'. unfold run_rows. cbn [flat_map]. rewrite app_assoc.
        split; [reflexivity|]. split; [exact Hw'|].
        rewrite Hn', Hn1. cbn [length]. lia.
    + destruct (visit_fails url rows w e Hw Hfate) as (w1 & Heq & Hst).
      rewrite Heq. exists w1. rewrite Nat.add_0_r. auto.
Qed.

(** [scrape] in a fresh browser context. *)
Lemma scrape_run urls :
  match first_failure web urls with
  | None =>
      exists tr,
        scrape TODAY urls clean_rows web fresh
        = (Ret tt,
           {| w_trace :=
                EvPrint (MsgProcessed (length (run_rows TODAY web urls)))
                :: EvPushToGsheet (clean_rows (run_rows TODAY web urls))
                :: EvPrint (MsgWrote (length (run_rows TODAY web urls)))
                :: EvWriteCsv (run_rows TODAY web urls) :: tr;
              w_pages := ∅;
              w_next := length urls |})
        /\ settled {| w_trace := tr; w_pages := ∅; w_next := length urls |}
  | Some (k, e) =>
      exists w',
        scrape TODAY urls clean_rows web fresh = (Raise e, w') /\ stuck w' k e
  end.
Proof.
  pose proof (for_each_run urls [] fresh settled_fresh_world) as H.
  unfold scrape, bind.
  destruct (first_failure web urls) as [[k e]|].
  - destruct H as (w' & Heq & Hst). rewrite Heq. exists w'. auto.
  - destruct H as (w' & Heq & Hw' & Hn). rewrite Heq. cbn.
    destruct w' as [tr pages next]. cbn in Hn. subst next.
    pose proof (settled_pages _ Hw') as Hp. cbn in Hp. subst pages.
    exists tr. auto.
Qed.

End Run.

(** ** Normalising a name *)

Lemma split_head sep s : index0 (split sep s) = Some (take_until sep s).
Proof.
  induction s as [|c s IH]; cbn; [reflexivity|].
  destruct (c =? sep)%N; [reflexivity|].
  destruct (split sep s) as [|seg segs]; cbn in *; [discriminate|].
  congruence.
Qed.

Lemma clean_name_take_until raw : clean_name raw = take_until LF (strip raw).
Proof. unfold clean_name. rewrite split_head. reflexivity. Qed.

Lemma normalize_spec_take_until raw :
  normalize_spec raw = strip (take_until LF raw).
Proof. unfold normalize_spec. rewrite split_head. reflexivity. Qed.

Lemma take_until_prefix sep s :
  exists rest, s = take_until sep s ++ rest
               /\ (rest = [] \/ exists rest', rest = sep :: rest').
Proof.
  induction s as [|c s (rest & Hs & Hrest)]; cbn.
  - exists []. auto.
  - destruct (N.eqb_spec c sep) as [->|Hne].
    + exists (sep :: s). eauto.
    + exists rest. cbn. split; [congruence | exact Hrest].
Qed.

Lemma take_until_no_sep sep s : ~ In sep (take_until sep s).
Proof.
  induction s as [|c s IH]; cbn; [tauto|].
  destruct (N.eqb_spec c sep) as [->|Hne]; cbn; [tauto|].
  intros [Heq|Hin]; [congruence | tauto].
Qed.

Lemma take_until_app_sep sep seg rest :
  ~ In sep seg -> take_until sep (seg ++ sep :: rest) = seg.
Proof.
  induction seg as [|c seg IH]; cbn; intros Hnot.
  - rewrite N.eqb_refl. reflexivity.
  - destruct (N.eqb_spec c sep) as [->|Hne]; [tauto|].
    rewrite IH; tauto.
Qed.

Lemma take_until_id sep seg : ~ In sep seg -> take_until sep seg = seg.
Proof.
  induction seg as [|c seg IH]; cbn; intros Hnot; [reflexivity|].
  destruct (N.eqb_spec c sep) as [->|Hne]; [tauto|].
  rewrite IH; tauto.
Qed.

Lemma lstrip_suffix s : exists ws, s = ws ++ lstrip s.
Proof.
  induction s as [|c s (ws & Hs)]; cbn.
  - exists []. reflexivity.
  - destruct (isspace c).
    + exists (c :: ws). cbn. congruence.
    + exists []. reflexivity.
Qed.

Lemma lstrip_app_nonspace a c b :
  isspace c = false -> lstrip (a ++ c :: b) = lstrip a ++ c :: b.
Proof.
  intros Hc. induction a as [|x a IH]; cbn.
  - rewrite Hc. reflexivity.
  - destruct (isspace x); [exact IH | reflexivity].
Qed.

Lemma rstrip_prefix s : exists ws, s = rstrip s ++ ws.
Proof.
  unfold rstrip. destruct (lstrip_suffix (rev s)) as (ws & Hws).
  exists (rev ws). apply (f_equal (@rev N)) in Hws.
  rewrite rev_involutive in Hws.
  etransitivity; [exact Hws | apply rev_app_distr].
Qed.

Lemma rstrip_app_nonspace a c b :
  isspace c = false -> rstrip (a ++ c :: b) = a ++ c :: rstrip b.
Proof.
  intros Hc. unfold rstrip.
  rewrite rev_app_distr. cbn [rev]. rewrite <- app_assoc. cbn [app].
  rewrite (lstrip_app_nonspace _ _ _ Hc).
  rewrite rev_app_distr. cbn [rev]. rewrite rev_involutive, <- app_assoc.
  reflexivity.
Qed.

(** The stripped text does not start with whitespace. *)
Lemma lstrip_head s : forall c, head (lstrip s) = Some c -> isspace c = false.
Proof.
  induction s as [|x s IH]; cbn; intros c; [discriminate|].
  destruct (isspace x) eqn:Hx; [apply IH|]. cbn. congruence.
Qed.

Lemma strip_head s : forall c, head (strip s) = Some c -> isspace c = false.
Proof.
  intros c. unfold strip.
  destruct (lstrip s) as [|x t] eqn:Hl; [cbn; discriminate|].
  assert (Hx : isspace x = false) by (apply (lstrip_head s); rewrite Hl; reflexivity).
  change (x :: t) with ([] ++ x :: t).
  rewrite (rstrip_app_nonspace [] x t Hx). cbn. congruence.
Qed.

(** On a first line of two characters or more without surrounding
    whitespace both orders of trimming and splitting return that line. *)
Lemma clean_name_tidy_line a z body rest tail :
  isspace a = false -> isspace z = false ->
  ~ In LF (a :: body ++ [z]) ->
  tail = [] \/ tail = LF :: rest ->
  clean_name ((a :: body ++ [z]) ++ tail) = a :: body ++ [z]
  /\ normalize_spec ((a :: body ++ [z]) ++ tail) = a :: body ++ [z].
Proof.
  intros Ha Hz Hnl Htail.
  assert (Hstrip : forall t, strip ((a :: body ++ [z]) ++ t)
                             = (a :: body ++ [z]) ++ rstrip t).
  { intros t. unfold strip. cbn [app lstrip]. rewrite Ha.
    change (a :: (body ++ [z]) ++ t) with ((a :: body ++ [z]) ++ t).
    replace ((a :: body ++ [z]) ++ t) with ((a :: body) ++ z :: t)
      by (cbn; rewrite <- app_assoc; reflexivity).
    rewrite (rstrip_app_nonspace _ _ _ Hz). cbn. rewrite <- app_assoc. reflexivity. }
  rewrite clean_name_take_until, normalize_spec_take_until, Hstrip.
  destruct Htail as [->| ->].
  - rewrite app_nil_r. change (rstrip []) with (@nil N). rewrite app_nil_r.
    rewrite (take_until_id _ _ Hnl). split; [reflexivity|].
    rewrite <- (app_nil_r (a :: body ++ [z])) at 1. rewrite Hstrip.
    apply app_nil_r.
  - rewrite (take_until_app_sep _ _ _ Hnl). split.
    + destruct (rstrip_prefix (LF :: rest)) as (ws & Hws).
      destruct (rstrip (LF :: rest)) as [|c t].
      * rewrite app_nil_r. apply take_until_id, Hnl.
      * cbn in Hws. injection Hws as <- _. apply take_until_app_sep, Hnl.
    + rewrite <- (app_nil_r (a :: body ++ [z])) at 1. rewrite Hstrip.
      apply app_nil_r.
Qed.

(** ** Properties of the convergence loop *)

Lemma run_loop_exhausted counts n : forall i st,
  fst (fst (run_loop counts n i st)) = Exhausted ->
  snd (run_loop counts n i st) = (i + n)%nat.
Proof.
  induction n as [|n IH]; intros i st; cbn.
  - intros _. lia.
  - destruct (progress _ st) as [st'|st']; cbn; [|discriminate].
    intros H. rewrite (IH _ _ H). lia.
Qed.

Lemma monitor_step_le counts j :
  stalled (monitor counts (S j)) <= stalled (monitor counts j) + 1.
Proof.
  cbn. unfold observe. pose proof (monitor_stalled_nonneg counts j).
  destruct (_ =? _); cbn; lia.
Qed.

Section LoopClaims.
Context {date sheet : Type}.
Implicit Types (w : world date sheet) (ctx : handle) (pg : page_state)
  (st : ScrollState).

Lemma load_everything_loop_eq ctx w pg :
  w_pages w !! ctx = Some pg ->
  exists evs pg',
    load_everything_loop ctx w =
      (Ret (run_loop (measured pg) (Z.to_nat MAX_SCROLLS) 0 initial_state),
       {| w_trace := evs ++ w_trace w;
          w_pages := <[ctx := pg']> (w_pages w);
          w_next := w_next w |})
    /\ scrolls_of ctx evs
       = snd (run_loop (measured pg) (Z.to_nat MAX_SCROLLS) 0 initial_state).
Proof.
  intros Hpg.
  destruct (for_range_eq ctx (measured pg) (Z.to_nat MAX_SCROLLS) 0
              initial_state w pg Hpg) as (evs & pg' & Heq & _ & _ & _ & Hs).
  { intros j. reflexivity. }
  exists evs, pg'. rewrite Nat.sub_0_r in Hs. auto.
Qed.

(** C1. Whenever the stall counter reaches the stall limit, that is at the
    first iteration [m] at which the Progress Monitor has counted
    [STALL_LIMIT] measurements equal to [lastCount] in a row, the loop ends
    in [STALL_EXIT] on exactly that iteration: it has run [m] iterations
    and triggered [m] scrolls, no more. *)
Theorem stall_exit_on_that_iteration ctx w pg m :
  w_pages w !! ctx = Some pg ->
  (m <= Z.to_nat MAX_SCROLLS)%nat ->
  (forall j, (j < m)%nat -> stalled (monitor (measured pg) j) < STALL_LIMIT) ->
  stalled (monitor (measured pg) m) >= STALL_LIMIT ->
  exists e w',
    load_everything_loop ctx w = (Ret (e, monitor (measured pg) m, m), w')
    /\ terminal_of e = STALL_EXIT
    /\ stalled (monitor (measured pg) m) = STALL_LIMIT
    /\ scrolls_of ctx (w_trace w') = (m + scrolls_of ctx (w_trace w))%nat.
Proof.
  intros Hpg Hm Hlt Hge.
  assert (Hpos : (0 < m)%nat).
  { destruct m; [|lia]. cbn in Hge. unfold STALL_LIMIT in Hge. lia. }
  destruct (load_everything_loop_eq ctx w pg Hpg) as (evs & pg' & Heq & Hs).
  change initial_state with (monitor (measured pg) 0) in Heq, Hs.
  rewrite (run_loop_stall (measured pg) _ 0 m) in Heq, Hs;
    [| lia | intros j Hj; apply Hlt; lia | exact Hge
     | lia | intros j Hj; apply Hlt; lia | exact Hge].
  exists Broke. eexists. split; [exact Heq|].
  split; [reflexivity|]. split.
  - destruct m as [|m']; [lia|].
    pose proof (monitor_step_le (measured pg) m').
    specialize (Hlt m'). lia.
  - cbn [w_trace]. rewrite scrolls_of_app, Hs. reflexivity.
Qed.

(** C3, as the code has it. If the measured count is the same constant on
    every measurement from the start, the loop (from [lastCount = -1],
    [stallCount = 0], iteration 0) reaches [STALL_EXIT] in exactly
    [STALL_LIMIT + 1] iterations, with [lastCount] equal to that constant:
    the first iteration replaces the sentinel and counts as progress. *)
Theorem constant_count_stalls_after_limit_plus_one ctx w pg c :
  w_pages w !! ctx = Some pg ->
  (forall j, measured pg j = c) ->
  exists e st w',
    load_everything_loop ctx w = (Ret (e, st, S (Z.to_nat STALL_LIMIT)), w')
    /\ terminal_of e = STALL_EXIT
    /\ seen st = Z.of_nat c
    /\ stalled st = STALL_LIMIT
    /\ scrolls_of ctx (w_trace w')
       = (S (Z.to_nat STALL_LIMIT) + scrolls_of ctx (w_trace w))%nat.
Proof.
  intros Hpg Hc.
  destruct (load_everything_loop_eq ctx w pg Hpg) as (evs & pg' & Heq & Hs).
  rewrite (run_loop_ext (measured pg) (fun _ => c)) in Heq, Hs
    by (intros j; apply Hc).
  change initial_state with (monitor (fun _ => c) 0) in Heq, Hs.
  assert (Hrun : run_loop (fun _ => c) (Z.to_nat MAX_SCROLLS) 0
                   (monitor (fun _ => c) 0)
                 = (Broke, monitor (fun _ => c) (S (Z.to_nat STALL_LIMIT)),
                    S (Z.to_nat STALL_LIMIT))).
  { apply run_loop_stall.
    - unfold STALL_LIMIT, MAX_SCROLLS. lia.
    - intros [|j] Hj; [cbn; unfold STALL_LIMIT; lia|].
      rewrite monitor_const. cbn [stalled]. unfold STALL_LIMIT in *. lia.
    - rewrite monitor_const. cbn [stalled]. unfold STALL_LIMIT. lia. }
  rewrite Hrun in Heq, Hs. rewrite monitor_const in Heq.
  exists Broke. eexists. eexists. split; [exact Heq|].
  split; [reflexivity|]. split; [reflexivity|].
  split; [cbn [stalled]; unfold STALL_LIMIT; lia|].
  cbn [w_trace]. rewrite scrolls_of_app, Hs. reflexivity.
Qed.

(** While the count changes at every iteration, shrinking included, the
    loop never stalls out: it runs to the cap. *)
Lemma changing_counts_reach_cap ctx w pg :
  w_pages w !! ctx = Some pg ->
  (forall j, measured pg (S (S j)) <> measured pg (S j)) ->
  exists st w',
    load_everything_loop ctx w
    = (Ret (Exhausted, st, Z.to_nat MAX_SCROLLS), w')
    /\ stalled st = 0.
Proof.
  intros Hpg Hch.
  destruct (load_everything_loop_eq ctx w pg Hpg) as (evs & pg' & Heq & _).
  change initial_state with (monitor (measured pg) 0) in Heq.
  rewrite run_loop_cap in Heq.
  - eexists. eexists. split; [exact Heq|].
    cbn [Nat.add]. unfold MAX_SCROLLS.
    replace (Z.to_nat 300) with (S 299) by lia.
    rewrite (monitor_changing _ Hch). reflexivity.
  - intros [|j] Hj; [lia|].
    rewrite (monitor_changing _ Hch). cbn [stalled]. unfold STALL_LIMIT. lia.
Qed.

(** C10. In the progress check any measured count that differs from
    [lastCount], greater or smaller, is progress: [lastCount] becomes the
    new count and [stallCount] is reset to 0 and the loop goes on;
    [stallCount] is incremented exactly when the new count equals
    [lastCount]. *)
Theorem progress_check_any_change ctx w pg st :
  w_pages w !! ctx = Some pg ->
  0 <= stalled st ->
  exists c w',
    scroll_iteration ctx st w = (Ret c, w')
    /\ (Z.of_nat (measured pg 1) <> seen st ->
        c = Continue {| stalled := 0; seen := Z.of_nat (measured pg 1) |})
    /\ (Z.of_nat (measured pg 1) < seen st ->
        c = Continue {| stalled := 0; seen := Z.of_nat (measured pg 1) |})
    /\ (Z.of_nat (measured pg 1) = seen st ->
        ctl_state c = {| stalled := stalled st + 1; seen := seen st |})
    /\ (stalled (ctl_state c) = stalled st + 1 <->
        Z.of_nat (measured pg 1) = seen st).
Proof.
  intros Hpg Hst. rewrite (scroll_iteration_eq ctx st w pg Hpg).
  eexists. eexists. split; [reflexivity|].
  unfold progress.
  destruct (Z.eqb_spec (Z.of_nat (measured pg 1)) (seen st)) as [Heq|Hne].
  - repeat split; try (intros; lia).
    + intros _. destruct (_ >=? _); reflexivity.
    + destruct (_ >=? _); reflexivity.
  - repeat split; try (intros; lia); try reflexivity.
    cbn. intros. lia.
Qed.

(** C7. A timeout of either bounded wait of the Load-Settle Waiter (the
    indicator does not attach within 7000 ms, or does not detach within
    7000 ms) does not reach the loop as an exception: the iteration goes
    on with the 500 ms settle delay, the count and the progress check,
    and the loop as a whole returns. *)
Theorem settle_timeout_is_not_fatal ctx w pg st :
  w_pages w !! ctx = Some pg ->
  doc_loader (pg_doc pg) (S (pg_triggers pg)) <> LoaderCycles ->
  exists waits,
    scroll_iteration ctx st w =
      (Ret (progress (Z.of_nat (measured pg 1)) st),
       {| w_trace :=
            progress_events (Z.of_nat (measured pg 1)) st
            ++ EvCount ctx (Z.of_nat (measured pg 1))
            :: EvWaitForTimeout ctx 500
            :: waits ++ EvScroll ctx :: w_trace w;
          w_pages := <[ctx := scrolled pg]> (w_pages w);
          w_next := w_next w |})
    /\ (doc_loader (pg_doc pg) (S (pg_triggers pg)) = LoaderNeverAttaches ->
        waits = [EvWaitFor ctx attached 7000])
    /\ (doc_loader (pg_doc pg) (S (pg_triggers pg)) = LoaderSticks ->
        waits = [EvWaitFor ctx detached 7000; EvWaitFor ctx attached 7000])
    /\ exists r w', load_everything_loop ctx w = (Ret r, w').
Proof.
  intros Hpg Hld. rewrite (scroll_iteration_eq ctx st w pg Hpg).
  exists (waiter_events ctx (doc_loader (pg_doc pg) (S (pg_triggers pg)))).
  split; [|split; [|split]].
  - unfold iteration_events.
    repeat (rewrite <- ?app_assoc; cbn [app]). reflexivity.
  - intros ->. reflexivity.
  - intros ->. reflexivity.
  - destruct (load_everything_loop_eq ctx w pg Hpg) as (evs & pg' & Heq & _).
    eauto.
Qed.

End LoopClaims.

(** ** Properties of the run *)

Lemma completes_reaches_loop d : url_fate d = Completes -> reaches_loop d.
Proof.
  unfold url_fate, reaches_loop.
  destruct (doc_loads d); [|discriminate].
  destruct (doc_root_attaches d); [|discriminate].
  destruct (Z.eqb_spec (Z.of_nat (doc_items d 0)) 0); [discriminate|].
  intros _. repeat split. lia.
Qed.

(** With at most one page open at any point, a page is opened only while
    none is open. *)
Lemma one_at_a_time_opens {date sheet} (tr : list (event date sheet)) :
  one_at_a_time tr = true -> opens_one_by_one tr = true.
Proof.
  induction tr as [|e tr IH]; [reflexivity|].
  cbn [one_at_a_time]. intros [Hlen Hrest]%andb_prop.
  specialize (IH Hrest). destruct e; cbn in *; try exact IH.
  rewrite IH. destruct (open_handles tr); [reflexivity | discriminate].
Qed.

Section RunClaims.
Context {date sheet : Type}.
Variable TODAY : date.
Variable clean_rows : list (Row date) -> sheet.
Variable web : pystr -> document.
Implicit Types (w : world date sheet) (url : pystr) (urls : list pystr)
  (rows : list (Row date)).

Lemma reaches_loop_completes d : reaches_loop d -> url_fate d = Completes.
Proof.
  intros (Hl & Hr & Hz). unfold url_fate. rewrite Hl, Hr.
  destruct (Z.eqb_spec (Z.of_nat (doc_items d 0)) 0); [lia | reflexivity].
Qed.

Lemma first_failure_prefix pre url post e :
  Forall (fun u => reaches_loop (web u)) pre ->
  url_fate (web url) = Fails e ->
  first_failure web (pre ++ url :: post) = Some (length pre, e).
Proof.
  intros Hpre Hurl. induction Hpre as [|u pre Hu _ IH]; cbn.
  - rewrite Hurl. reflexivity.
  - rewrite (reaches_loop_completes _ Hu), IH. reflexivity.
Qed.

(** Over a whole run no page is scrolled more than [MAX_SCROLLS] times. *)
Lemma scrape_scroll_cap urls h :
  (scrolls_of h (w_trace (snd (scrape TODAY urls clean_rows web fresh)))
   <= Z.to_nat MAX_SCROLLS)%nat.
Proof.
  pose proof (scrape_run TODAY clean_rows web urls) as H.
  destruct (first_failure web urls) as [[k e]|].
  - destruct H as (w' & -> & Hst). apply (stuck_cap _ _ _ Hst).
  - destruct H as (tr & -> & Hw). cbn.
    apply (settled_cap _ Hw h).
Qed.

(** C2. Over a whole run no page is scrolled more than [MAX_SCROLLS]
    times, whatever the counts do. The visit of a Target that reaches the
    convergence loop returns normally; its page is scrolled [n] times with
    [n] at most [MAX_SCROLLS]; when the loop ends in [CAP_EXIT], [n] is
    [MAX_SCROLLS], and the rows are still extracted, from the texts present
    after those [n] scrolls. *)
Theorem cap_is_absolute urls h url rows w :
  (scrolls_of h (w_trace (snd (scrape TODAY urls clean_rows web fresh)))
   <= Z.to_nat MAX_SCROLLS)%nat
  /\ (w_pages w = ∅ ->
      reaches_loop (web url) ->
      exists n evs w',
        scrape_url TODAY web url rows w
        = (Ret (rows ++ map (fun name => (url, name, TODAY))
                            (doc_texts (web url) n)), w')
        /\ w_trace w' = evs ++ w_trace w
        /\ scrolls_of (w_next w) evs = n
        /\ (forall h', (scrolls_of h' evs <= Z.to_nat MAX_SCROLLS)%nat)
        /\ (n <= Z.to_nat MAX_SCROLLS)%nat
        /\ (terminal_of
              (fst (fst (run_loop (doc_items (web url))
                                  (Z.to_nat MAX_SCROLLS) 0 initial_state)))
            = CAP_EXIT ->
            n = Z.to_nat MAX_SCROLLS)).
Proof.
  split; [apply scrape_scroll_cap|].
  intros Hp Hfate%reaches_loop_completes.
  destruct (scrape_url_completes TODAY web url rows w Hp Hfate)
    as (mid & Hmid & Hs & Heq).
  exists (final_triggers (web url)),
    (EvClose (w_next w) :: mid ++ [EvNewPage (w_next w)]).
  eexists. split; [exact Heq|].
  pose proof (final_triggers_le (web url)) as Hle.
  assert (Hall : forall h',
    scrolls_of h' (EvClose (w_next w) :: mid ++ [EvNewPage (w_next w)])
    = scrolls_of h' mid).
  { intros h'. rewrite scrolls_of_closed, scrolls_of_app. cbn. lia. }
  split; [|split; [|split; [|split]]].
  - cbn. rewrite <- app_assoc. reflexivity.
  - rewrite Hall. exact Hs.
  - intros h'. rewrite Hall.
    destruct (Nat.eq_dec h' (w_next w)) as [->|Hne]; [lia|].
    rewrite (scrolls_of_on_page _ _ _ Hne Hmid). lia.
  - exact Hle.
  - intros Hcap. unfold final_triggers. apply run_loop_exhausted.
    destruct (fst (fst _)); [reflexivity | discriminate].
Qed.

(** C4. If the first measurement of a Target counts 0 items (the Targets
    before it were visited, its own page loaded and showed the list root),
    the run aborts with the diagnostic: the zero count is the last call
    made, the Target's page was never scrolled (the loop was not entered),
    no page was opened for a later Target, and nothing was written. *)
Theorem zero_initial_items_abort pre url post :
  Forall (fun u => reaches_loop (web u)) pre ->
  doc_loads (web url) = true ->
  doc_root_attaches (web url) = true ->
  doc_items (web url) 0 = 0%nat ->
  exists w',
    scrape TODAY (pre ++ url :: post) clean_rows web fresh
    = (Raise (SystemExit zero_items_msg), w')
    /\ head (w_trace w') = Some (EvCount (length pre) 0)
    /\ scrolls_of (length pre) (w_trace w') = 0%nat
    /\ open_handles (w_trace w') = [length pre]
    /\ length (List.filter is_new_page (w_trace w')) = S (length pre)
    /\ List.filter is_output (w_trace w') = []
    /\ csv_written (w_trace w') = None.
Proof.
  intros Hpre Hl Hr Hz.
  assert (Hfate : url_fate (web url) = Fails (SystemExit zero_items_msg)).
  { unfold url_fate. rewrite Hl, Hr, Hz. reflexivity. }
  pose proof (scrape_run TODAY clean_rows web (pre ++ url :: post)) as H.
  rewrite (first_failure_prefix pre url post _ Hpre Hfate) in H.
  destruct H as (w' & Heq & Hst). exists w'. split; [exact Heq|].
  destruct Hst as [_ Ho _ Hq Hn _ Hi Hlast].
  repeat split; eauto using csv_written_no_output.
Qed.

(** C8. When the run completes, the rows written to the CSV file, which
    are the rows the run collected, are those of the Targets in worklist
    order and, within a Target, in the DOM order of its texts; the file
    is written once, after every Target was visited and its page closed. *)
Theorem rows_in_target_then_dom_order urls w' :
  scrape TODAY urls clean_rows web fresh = (Ret tt, w') ->
  exists rows tr,
    rows = flat_map (fun url =>
             map (fun name => (url, name, TODAY))
                 (doc_texts (web url) (final_triggers (web url)))) urls
    /\ w_trace w'
       = EvPrint (MsgProcessed (length rows))
         :: EvPushToGsheet (clean_rows rows)
         :: EvPrint (MsgWrote (length rows))
         :: EvWriteCsv rows :: tr
    /\ csv_written (w_trace w') = Some rows
    /\ List.filter is_output tr = []
    /\ open_handles tr = []
    /\ length (List.filter is_new_page tr) = length urls.
Proof.
  intros Hrun.
  pose proof (scrape_run TODAY clean_rows web urls) as H.
  destruct (first_failure web urls) as [[k e]|].
  - destruct H as (w1 & Heq & _). congruence.
  - destruct H as (tr & Heq & Hw). rewrite Heq in Hrun.
    injection Hrun as <-. exists (run_rows TODAY web urls), tr.
    destruct Hw as [_ Ho _ Hq Hn _ _]. cbn in *.
    repeat split; assumption.
Qed.


Lemma not_reaches_fails d :
  ~ reaches_loop d -> exists e, url_fate d = Fails e.
Proof.
  intros Hnot. destruct (url_fate d) as [|e] eqn:Hfate; [|eauto].
  destruct Hnot. apply completes_reaches_loop, Hfate.
Qed.

Lemma scrape_one_at_a_time urls :
  one_at_a_time (w_trace (snd (scrape TODAY urls clean_rows web fresh))) = true.
Proof.
  pose proof (scrape_run TODAY clean_rows web urls) as H.
  destruct (first_failure web urls) as [[k e]|].
  - destruct H as (w' & -> & Hst). apply (stuck_one _ _ _ Hst).
  - destruct H as (tr & -> & Hw). destruct Hw as [_ Ho H1 _ _ _ _].
    cbn in *. rewrite Ho, H1. reflexivity.
Qed.

Lemma scrape_in_playwright_trace urls :
  w_trace (snd (scrape_in_playwright TODAY urls clean_rows web fresh))
  = w_trace (snd (scrape TODAY urls clean_rows web fresh)).
Proof.
  unfold scrape_in_playwright, async_with_playwright.
  destruct (scrape TODAY urls clean_rows web fresh). reflexivity.
Qed.

Lemma scrape_in_playwright_outcome urls :
  fst (scrape_in_playwright TODAY urls clean_rows web fresh)
  = fst (scrape TODAY urls clean_rows web fresh).
Proof.
  unfold scrape_in_playwright, async_with_playwright.
  destruct (scrape TODAY urls clean_rows web fresh). reflexivity.
Qed.

Lemma scrape_in_playwright_pages urls :
  w_pages (snd (scrape_in_playwright TODAY urls clean_rows web fresh)) = ∅.
Proof.
  unfold scrape_in_playwright, async_with_playwright.
  destruct (scrape TODAY urls clean_rows web fresh). reflexivity.
Qed.

(** C9. Each Target's page is closed before the next Target is opened, on
    every path. A page is opened only while no page is open, so at no
    point of a run is more than one page open. A run that completes has
    closed every page it opened. After a Target that does not reach the
    loop, the zero-items abort included, the run raises and opens no page
    for a later Target; the page it leaves is released when the
    [async with] block is left, so that no page is open once [scrape] is
    over, however it ends. *)
Theorem one_page_open_at_a_time urls :
  one_at_a_time
    (w_trace (snd (scrape_in_playwright TODAY urls clean_rows web fresh)))
  = true
  /\ opens_one_by_one
       (w_trace (snd (scrape_in_playwright TODAY urls clean_rows web fresh)))
     = true
  /\ w_pages (snd (scrape_in_playwright TODAY urls clean_rows web fresh)) = ∅
  /\ (fst (scrape_in_playwright TODAY urls clean_rows web fresh) = Ret tt ->
      open_handles
        (w_trace (snd (scrape_in_playwright TODAY urls clean_rows web fresh)))
      = []
      /\ w_pages (snd (scrape TODAY urls clean_rows web fresh)) = ∅)
  /\ (forall pre url post,
        urls = pre ++ url :: post ->
        Forall (fun u => reaches_loop (web u)) pre ->
        ~ reaches_loop (web url) ->
        (exists e,
            fst (scrape_in_playwright TODAY urls clean_rows web fresh)
            = Raise e)
        /\ length
             (List.filter is_new_page
                (w_trace (snd (scrape_in_playwright TODAY urls clean_rows web
                                                    fresh))))
           = S (length pre)).
Proof.
  rewrite !scrape_in_playwright_trace, !scrape_in_playwright_outcome.
  split; [|split; [|split; [|split]]].
  - apply scrape_one_at_a_time.
  - apply one_at_a_time_opens, scrape_one_at_a_time.
  - apply scrape_in_playwright_pages.
  - intros Hret. pose proof (scrape_run TODAY clean_rows web urls) as H.
    destruct (first_failure web urls) as [[k e]|].
    + destruct H as (w' & Heq & _). rewrite Heq in Hret. discriminate.
    + destruct H as (tr & -> & Hw). destruct Hw as [_ Ho _ _ _ _ _].
      cbn in *. rewrite Ho. auto.
  - intros pre url post -> Hpre Hnot.
    destruct (not_reaches_fails _ Hnot) as (e & Hfate).
    pose proof (scrape_run TODAY clean_rows web (pre ++ url :: post)) as H.
    rewrite (first_failure_prefix pre url post e Hpre Hfate) in H.
    destruct H as (w' & -> & Hst). cbn [fst snd].
    split; [eauto | apply (stuck_new _ _ _ Hst)].
Qed.

End RunClaims.

(** ** Properties of the name normalisation *)

(** C6, as the code has it. The normalisation first trims the whole raw
    text, then takes the segment before the first newline of the trimmed
    text: the result is the newline-free prefix of the trimmed text that
    ends at its first newline. It maps ["Acme Corp\nFollowing"] to
    ["Acme Corp"]. *)
Theorem clean_name_trims_then_takes_first_line raw :
  (exists rest,
      strip raw = clean_name raw ++ rest
      /\ (rest = [] \/ exists rest', rest = LF :: rest'))
  /\ ~ In LF (clean_name raw)
  /\ (forall c, head (clean_name raw) = Some c -> isspace c = false)
  /\ clean_name acme_raw = of_string "Acme Corp".
Proof.
  rewrite clean_name_take_until. split; [|split; [|split]].
  - apply take_until_prefix.
  - apply take_until_no_sep.
  - intros c Hc. apply (strip_head raw).
    destruct (strip raw) as [|x t]; [discriminate|].
    cbn in Hc. destruct (x =? LF)%N; [discriminate|exact Hc].
  - reflexivity.
Qed.


(** C1 on a page that shows 3 rows, then 5 from the second scroll on: the
    stall counter reaches 4 at iteration 6 and the loop stops there. *)
Lemma stall_exit_on_that_iteration_witness :
  exists e w',
    load_everything_loop 0 (showing page_grows)
    = (Ret (e, monitor (measured (loaded page_grows)) 6, 6%nat), w')
    /\ terminal_of e = STALL_EXIT
    /\ stalled (monitor (measured (loaded page_grows)) 6) = STALL_LIMIT
    /\ scrolls_of 0 (w_trace w')
       = (6 + scrolls_of 0 (w_trace (showing page_grows)))%nat.
Proof.
  apply (stall_exit_on_that_iteration 0 (showing page_grows) (loaded page_grows) 6).
  - reflexivity.
  - vm_compute. lia.
  - intros j Hj.
    do 6 (destruct j as [|j]; [vm_compute; reflexivity|]). lia.
  - vm_compute. discriminate.
Defined.

(** C3 as stated fails on a page that always shows 7 rows: the loop does
    not stop after [STALL_LIMIT] iterations. *)
Lemma constant_count_not_stall_limit_iterations :
  (forall j, measured (loaded page_seven) j = 7%nat)
  /\ ~ (exists e st w',
          load_everything_loop 0 (showing page_seven)
          = (Ret (e, st, Z.to_nat STALL_LIMIT), w')).
Proof.
  split; [reflexivity|].
  intros (e & st & w' & H). vm_compute in H. discriminate H.
Qed.

Lemma constant_count_stalls_after_limit_plus_one_witness :
  exists e st w',
    load_everything_loop 0 (showing page_seven)
    = (Ret (e, st, 5%nat), w')
    /\ terminal_of e = STALL_EXIT
    /\ seen st = 7
    /\ stalled st = STALL_LIMIT
    /\ scrolls_of 0 (w_trace w') = 5%nat.
Proof.
  apply (constant_count_stalls_after_limit_plus_one 0
           (showing page_seven)
           (loaded page_seven) 7).
  - reflexivity.
  - intros j. reflexivity.
Defined.

(** C10 on a list that shrinks from 9 to 4 rows while the loop had already
    stalled twice at 9. *)
Lemma progress_check_any_change_witness :
  exists c w',
    scroll_iteration 0 {| stalled := 2; seen := 9 |} (showing page_shrinks)
    = (Ret c, w')
    /\ c = Continue {| stalled := 0; seen := 4 |}.
Proof.
  destruct (progress_check_any_change 0 (showing page_shrinks)
              (loaded page_shrinks) {| stalled := 2; seen := 9 |})
    as (c & w' & Heq & _ & Hless & _).
  - reflexivity.
  - cbn. lia.
  - exists c, w'. split; [exact Heq|]. apply Hless. vm_compute. reflexivity.
Defined.

(** C7 on a page whose indicator never attaches. *)
Lemma settle_timeout_is_not_fatal_witness :
  exists waits,
    scroll_iteration 0 initial_state (showing page_B)
    = (Ret (Continue {| stalled := 0; seen := 2 |}),
       {| w_trace :=
            [EvPrint (MsgCollected 2); EvCount 0 2; EvWaitForTimeout 0 500]
            ++ waits ++ [EvScroll 0];
          w_pages := {[ 0%nat := scrolled (loaded page_B) ]};
          w_next := 1 |})
    /\ waits = [EvWaitFor 0 attached 7000].
Proof.
  destruct (settle_timeout_is_not_fatal 0 (showing page_B) (loaded page_B)
              initial_state) as (waits & Heq & Hnever & _).
  - reflexivity.
  - discriminate.
  - specialize (Hnever eq_refl). subst waits.
    eexists. split; [|reflexivity]. rewrite Heq. vm_compute. reflexivity.
Defined.

(** C2 on a list that never stops growing: the loop gives up after 300
    scrolls and the visit still returns the row it found. *)
Lemma cap_is_absolute_witness :
  exists evs w',
    scrape_url today (fun _ => page_endless) url_A [] (fresh : browser)
    = (Ret [(url_A, of_string "Acme Corp", today)], w')
    /\ w_trace w' = evs ++ []
    /\ scrolls_of 0 evs = 300%nat
    /\ terminal_of
         (fst (fst (run_loop (doc_items page_endless) (Z.to_nat MAX_SCROLLS)
                             0 initial_state))) = CAP_EXIT.
Proof.
  destruct (proj2 (cap_is_absolute today keep (fun _ => page_endless)
                     [url_A] 0%nat url_A [] (fresh : browser)))
    as (n & evs & w' & Heq & Htr & Hs & _ & _ & Hcap).
  - reflexivity.
  - repeat split. discriminate.
  - assert (Hexit : terminal_of
              (fst (fst (run_loop (doc_items page_endless)
                                  (Z.to_nat MAX_SCROLLS) 0 initial_state)))
            = CAP_EXIT) by (vm_compute; reflexivity).
    specialize (Hcap Hexit). subst n.
    exists evs, w'. repeat split; assumption.
Defined.

(** C4 on the worklist A, stale, B. *)
Lemma zero_initial_items_abort_witness :
  exists w',
    scrape today [url_A; url_stale; url_B] keep web_AB
           (fresh : browser)
    = (Raise (SystemExit zero_items_msg), w')
    /\ head (w_trace w') = Some (EvCount 1 0)
    /\ scrolls_of 1 (w_trace w') = 0%nat
    /\ open_handles (w_trace w') = [1%nat]
    /\ length (List.filter is_new_page (w_trace w')) = 2%nat
    /\ List.filter is_output (w_trace w') = []
    /\ csv_written (w_trace w') = None.
Proof.
  apply (zero_initial_items_abort today keep web_AB
           [url_A] (url_stale) [url_B]).
  - repeat constructor. discriminate.
  - reflexivity.
  - reflexivity.
  - reflexivity.
Defined.

(** C8 on Targets A (3 items) then B (2 items). *)
Lemma rows_in_target_then_dom_order_witness :
  exists rows tr,
    rows = [(url_A, of_string "A-item1", today);
            (url_A, of_string "A-item2", today);
            (url_A, of_string "A-item3", today);
            (url_B, of_string "B-item1", today);
            (url_B, of_string "B-item2", today)]
    /\ w_trace (snd (scrape today [url_A; url_B] keep web_AB (fresh : browser)))
       = EvPrint (MsgProcessed 5) :: EvPushToGsheet rows
         :: EvPrint (MsgWrote 5) :: EvWriteCsv rows :: tr
    /\ csv_written
         (w_trace (snd (scrape today [url_A; url_B] keep web_AB (fresh : browser))))
       = Some rows.
Proof.
  destruct (rows_in_target_then_dom_order today keep web_AB [url_A; url_B]
              (snd (scrape today [url_A; url_B] keep web_AB (fresh : browser))))
    as (rows & tr & Hrows & Htr & Hcsv & _).
  - vm_compute. reflexivity.
  - assert (Hfive : rows = [(url_A, of_string "A-item1", today);
                            (url_A, of_string "A-item2", today);
                            (url_A, of_string "A-item3", today);
                            (url_B, of_string "B-item1", today);
                            (url_B, of_string "B-item2", today)])
      by (rewrite Hrows; vm_compute; reflexivity).
    clear Hrows. subst rows.
    eexists. exists tr. split; [reflexivity|]. split; [exact Htr | exact Hcsv].
Defined.


(** C9 on the worklist A, stale, B: the run aborts on the second Target,
    has opened two pages, one at a time, and leaves none open. *)
Lemma one_page_open_at_a_time_witness :
  one_at_a_time
    (w_trace (snd (scrape_in_playwright today [url_A; url_stale; url_B] keep
                                        web_AB (fresh : browser)))) = true
  /\ w_pages (snd (scrape_in_playwright today [url_A; url_stale; url_B] keep
                                        web_AB (fresh : browser))) = ∅
  /\ (exists e,
         fst (scrape_in_playwright today [url_A; url_stale; url_B] keep
                                   web_AB (fresh : browser)) = Raise e)
  /\ length
       (List.filter is_new_page
          (w_trace (snd (scrape_in_playwright today [url_A; url_stale; url_B]
                                              keep web_AB (fresh : browser)))))
     = 2%nat.
Proof.
  destruct (one_page_open_at_a_time today keep web_AB
              [url_A; url_stale; url_B])
    as (Hone & _ & Hpages & _ & Hafter).
  destruct (Hafter [url_A] url_stale [url_B]) as (Hraise & Hnew).
  - reflexivity.
  - repeat constructor. discriminate.
  - intros (_ & _ & Hz). apply Hz. reflexivity.
  - auto.
Defined.

(** C5 at the failing input. For a Target whose only name text is
    ["Acme Corp\nFollowing"], the row written by the run carries that raw
    text, not the normalised name ["Acme Corp"] that [scrape] computes in
    [clean_names]. *)
Theorem rows_carry_raw_names :
  csv_written
    (w_trace (snd (scrape today [url_A] keep (fun _ => page_acme)
                          (fresh : browser))))
  = Some [(url_A, acme_raw, today)]
  /\ clean_name acme_raw = of_string "Acme Corp"
  /\ acme_raw <> clean_name acme_raw.
Proof.
  split; [vm_compute; reflexivity|]. split; [reflexivity|].
  vm_compute. discriminate.
Qed.

(** C6 as stated fails on ["Acme Corp \nFollowing"]: trimming first keeps
    the blank that precedes the newline, splitting first removes it. *)
Lemma split_then_trim_differs :
  clean_name acme_padded = of_string "Acme Corp "
  /\ normalize_spec acme_padded = of_string "Acme Corp"
  /\ clean_name acme_padded <> normalize_spec acme_padded.
Proof.
  split; [reflexivity|]. split; [reflexivity|]. vm_compute. discriminate.
Qed.

Lemma clean_name_trims_then_takes_first_line_witness :
  strip acme_padded = clean_name acme_padded ++ LF :: of_string "Following"
  /\ ~ In LF (clean_name acme_padded).
Proof.
  split; [reflexivity|].
  apply (clean_name_trims_then_takes_first_line acme_padded).
Defined.

(** ** More on the convergence loop *)

(** From the first iteration on, [seen] is the count just measured. *)
Lemma monitor_seen counts j :
  seen (monitor counts (S j)) = Z.of_nat (counts (S j)).
Proof.
  cbn. unfold observe.
  destruct (Z.eqb_spec (Z.of_nat (counts (S j))) (seen (monitor counts j)));
    cbn; congruence.
Qed.

(** A stall counter of [k] needs [k + 1] iterations. *)
Lemma monitor_stalled_le counts j :
  stalled (monitor counts (S j)) <= Z.of_nat j.
Proof.
  induction j as [|j IH].
  - cbn. unfold observe. cbn [seen initial_state].
    destruct (Z.eqb_spec (Z.of_nat (counts 1%nat)) (-1)); cbn; lia.
  - pose proof (monitor_step_le counts (S j)). lia.
Qed.

(** The measurements a stall counter of [k] stands for are all equal. *)
Lemma monitor_streak counts j : forall k,
  Z.of_nat k <= stalled (monitor counts (S j)) ->
  counts (S j - k)%nat = counts (S j).
Proof.
  induction j as [|j IH]; intros k Hk.
  - pose proof (monitor_stalled_le counts 0). f_equal. lia.
  - destruct k as [|k]; [f_equal; lia|].
    change (monitor counts (S (S j)))
      with (observe (Z.of_nat (counts (S (S j)))) (monitor counts (S j))) in Hk.
    unfold observe in Hk. rewrite monitor_seen in Hk.
    destruct (Z.eqb_spec (Z.of_nat (counts (S (S j)))) (Z.of_nat (counts (S j))))
      as [Heq|Hne]; cbn [stalled] in Hk; [|lia].
    apply Nat2Z.inj in Heq. rewrite Heq.
    replace (S (S j) - S k)%nat with (S j - k)%nat by lia.
    apply IH. lia.
Qed.

(** The loop started in the monitor's state ends in the monitor's state,
    by a [break] exactly when the stall counter is at the limit. *)
Lemma run_loop_exit counts n : forall i,
  stalled (monitor counts i) < STALL_LIMIT ->
  exists e k,
    run_loop counts n i (monitor counts i) = (e, monitor counts k, k)
    /\ (i <= k <= i + n)%nat
    /\ (e = Broke -> stalled (monitor counts k) = STALL_LIMIT)
    /\ (e = Exhausted ->
        stalled (monitor counts k) < STALL_LIMIT /\ k = (i + n)%nat).
Proof.
  induction n as [|n IH]; intros i Hi; cbn [run_loop].
  - exists Exhausted, i. repeat split; try lia; discriminate.
  - rewrite progress_observe.
    change (observe _ (monitor counts i)) with (monitor counts (S i)).
    pose proof (monitor_step_le counts i) as Hstep.
    destruct (Z.geb_spec (stalled (monitor counts (S i))) STALL_LIMIT)
      as [Hge|Hlt].
    + exists Broke, (S i). repeat split; try lia; discriminate.
    + destruct (IH (S i) Hlt) as (e & k & Heq & Hk & Hb & Hx).
      exists e, k. split; [exact Heq|]. split; [lia|]. split; [exact Hb|].
      intros He. destruct (Hx He). split; [assumption | lia].
Qed.

Lemma run_loop_from_start counts :
  exists e k,
    run_loop counts (Z.to_nat MAX_SCROLLS) 0 initial_state
    = (e, monitor counts k, k)
    /\ (k <= Z.to_nat MAX_SCROLLS)%nat
    /\ (e = Broke -> stalled (monitor counts k) = STALL_LIMIT)
    /\ (e = Exhausted ->
        stalled (monitor counts k) < STALL_LIMIT
        /\ k = Z.to_nat MAX_SCROLLS).
Proof.
  destruct (run_loop_exit counts (Z.to_nat MAX_SCROLLS) 0)
    as (e & k & Heq & Hk & Hb & Hx).
  { cbn. unfold STALL_LIMIT. lia. }
  exists e, k. repeat split; try assumption; try lia; apply Hx; assumption.
Qed.

Section LoopExtras.
Context {date sheet : Type}.
Implicit Types (w : world date sheet) (ctx : handle) (pg : page_state)
  (st : ScrollState).

(** X1. Every call of the loop on an open page scrolls at least
    [STALL_LIMIT + 1] and at most [MAX_SCROLLS] times. *)
Theorem loop_iterations_between ctx w pg :
  w_pages w !! ctx = Some pg ->
  exists e st n w',
    load_everything_loop ctx w = (Ret (e, st, n), w')
    /\ (S (Z.to_nat STALL_LIMIT) <= n <= Z.to_nat MAX_SCROLLS)%nat
    /\ scrolls_of ctx (w_trace w') = (n + scrolls_of ctx (w_trace w))%nat.
Proof.
  intros Hpg.
  destruct (load_everything_loop_eq ctx w pg Hpg) as (evs & pg' & Heq & Hs).
  destruct (run_loop_from_start (measured pg)) as (e & k & Hrun & Hk & Hb & Hx).
  rewrite Hrun in Heq, Hs. cbn [snd] in Hs.
  exists e, (monitor (measured pg) k), k. eexists. split; [exact Heq|].
  split.
  - split; [|exact Hk]. destruct e.
    + destruct (Hx eq_refl) as [_ ->]. unfold STALL_LIMIT, MAX_SCROLLS. lia.
    + specialize (Hb eq_refl). destruct k as [|k].
      * cbn in Hb. unfold STALL_LIMIT in Hb. lia.
      * pose proof (monitor_stalled_le (measured pg) k).
        unfold STALL_LIMIT in *. lia.
  - cbn [w_trace]. rewrite scrolls_of_app, Hs. reflexivity.
Qed.

(** X2. When the loop returns, [seen] is the count of its last
    measurement, [stalled] lies between 0 and [STALL_LIMIT], the loop
    ended by [break] exactly when [stalled] is [STALL_LIMIT], and it ran
    out of the range only after [MAX_SCROLLS] iterations. *)
Theorem loop_exit_state ctx w pg :
  w_pages w !! ctx = Some pg ->
  exists e st n w',
    load_everything_loop ctx w = (Ret (e, st, n), w')
    /\ seen st = Z.of_nat (measured pg n)
    /\ 0 <= stalled st <= STALL_LIMIT
    /\ (terminal_of e = STALL_EXIT <-> stalled st = STALL_LIMIT)
    /\ (terminal_of e = CAP_EXIT -> n = Z.to_nat MAX_SCROLLS).
Proof.
  intros Hpg.
  destruct (load_everything_loop_eq ctx w pg Hpg) as (evs & pg' & Heq & _).
  destruct (run_loop_from_start (measured pg)) as (e & k & Hrun & Hk & Hb & Hx).
  rewrite Hrun in Heq.
  exists e, (monitor (measured pg) k), k. eexists. split; [exact Heq|].
  pose proof (monitor_stalled_nonneg (measured pg) k) as Hnn.
  assert (Hpos : (0 < k)%nat).
  { destruct e.
    - destruct (Hx eq_refl) as [_ ->]. unfold MAX_SCROLLS. lia.
    - specialize (Hb eq_refl). destruct k; [|lia].
      cbn in Hb. unfold STALL_LIMIT in Hb. lia. }
  destruct k as [|k]; [lia|].
  split; [apply monitor_seen|]. split; [|split].
  - destruct e; [destruct (Hx eq_refl) | specialize (Hb eq_refl)]; lia.
  - destruct e; cbn [terminal_of].
    + split; [discriminate|]. intros Hs. destruct (Hx eq_refl). exfalso. lia.
    + split; [intros _; apply Hb; reflexivity | reflexivity].
  - destruct e; cbn [terminal_of];
      [intros _; apply Hx; reflexivity | discriminate].
Qed.

(** X3. When the loop returns with [stalled = s], its last [s + 1]
    measurements were all equal; after a [STALL_EXIT] these are the last
    [STALL_LIMIT + 1] measurements. *)
Theorem loop_exit_streak ctx w pg :
  w_pages w !! ctx = Some pg ->
  exists e st n w',
    load_everything_loop ctx w = (Ret (e, st, n), w')
    /\ (forall k, Z.of_nat k <= stalled st ->
                  measured pg (n - k) = measured pg n)
    /\ (terminal_of e = STALL_EXIT ->
        forall k, (k <= Z.to_nat STALL_LIMIT)%nat ->
                  measured pg (n - k) = measured pg n).
Proof.
  intros Hpg.
  destruct (load_everything_loop_eq ctx w pg Hpg) as (evs & pg' & Heq & _).
  destruct (run_loop_from_start (measured pg)) as (e & k & Hrun & Hk & Hb & Hx).
  rewrite Hrun in Heq.
  exists e, (monitor (measured pg) k), k. eexists. split; [exact Heq|].
  assert (Hstreak : forall j, Z.of_nat j <= stalled (monitor (measured pg) k) ->
                              measured pg (k - j) = measured pg k).
  { destruct k as [|k].
    - intros j Hj. f_equal; lia.
    - apply (monitor_streak (measured pg) k). }
  split; [exact Hstreak|].
  intros He j Hj. apply Hstreak.
  destruct e; [discriminate|]. rewrite (Hb eq_refl). unfold STALL_LIMIT in *. lia.
Qed.

End LoopExtras.

Lemma loop_iterations_between_witness :
  exists e st n w',
    load_everything_loop 0 (showing page_grows) = (Ret (e, st, n), w')
    /\ (5 <= n <= 300)%nat.
Proof.
  destruct (loop_iterations_between 0 (showing page_grows) (loaded page_grows))
    as (e & st & n & w' & Heq & Hn & _).
  - reflexivity.
  - exists e, st, n, w'. split; [exact Heq | exact Hn].
Defined.

Lemma loop_exit_state_witness :
  exists e st n w',
    load_everything_loop 0 (showing page_grows) = (Ret (e, st, n), w')
    /\ seen st = Z.of_nat (measured (loaded page_grows) n)
    /\ 0 <= stalled st <= STALL_LIMIT.
Proof.
  destruct (loop_exit_state 0 (showing page_grows) (loaded page_grows))
    as (e & st & n & w' & Heq & Hseen & Hst & _).
  - reflexivity.
  - exists e, st, n, w'. auto.
Defined.

Lemma loop_exit_streak_witness :
  exists e st n w',
    load_everything_loop 0 (showing page_grows) = (Ret (e, st, n), w')
    /\ (forall k, Z.of_nat k <= stalled st ->
                  measured (loaded page_grows) (n - k)
                  = measured (loaded page_grows) n).
Proof.
  destruct (loop_exit_streak 0 (showing page_grows) (loaded page_grows))
    as (e & st & n & w' & Heq & Hstreak & _).
  - reflexivity.
  - exists e, st, n, w'. auto.
Defined.

(** ** The events of the loop *)

Section LoopEvents.
Context {date sheet : Type}.
Implicit Types (w : world date sheet) (h ctx : handle) (pg : page_state)
  (st : ScrollState) (tr : list (event date sheet)).

Lemma for_range_events h n : forall i st w pg,
  w_pages w !! h = Some pg ->
  exists r pages',
    for_range n i (scroll_iteration h) st w =
      (Ret r, {| w_trace := loop_events h pg n st ++ w_trace w;
                 w_pages := pages';
                 w_next := w_next w |}).
Proof.
  induction n as [|n IH]; intros i st w pg Hpg.
  - exists (Exhausted, st, i), (w_pages w). destruct w. reflexivity.
  - cbn [for_range loop_events]. unfold bind at 1.
    rewrite (scroll_iteration_eq h st w pg Hpg).
    destruct (progress _ st) as [st'|st'].
    + cbv beta iota.
      match goal with
      | |- context [for_range n (S i) _ st' ?w1] =>
          destruct (IH (S i) st' w1 (scrolled pg)) as (r & pages' & Heq)
      end.
      { cbn. apply lookup_insert_eq. }
      exists r, pages'. rewrite Heq. cbn. rewrite <- app_assoc. reflexivity.
    + eexists. eexists. reflexivity.
Qed.

Lemma load_everything_events h w pg :
  w_pages w !! h = Some pg ->
  exists pg',
    load_everything h w =
      (Ret tt,
       {| w_trace :=
            loop_events h pg (Z.to_nat MAX_SCROLLS) initial_state ++ w_trace w;
          w_pages := <[h := pg']> (w_pages w);
          w_next := w_next w |})
    /\ pg_doc pg' = pg_doc pg
    /\ pg_triggers pg' =
         (pg_triggers pg
          + snd (run_loop (measured pg) (Z.to_nat MAX_SCROLLS) 0
                          initial_state))%nat.
Proof.
  intros Hpg.
  destruct (load_everything_eq h w pg Hpg)
    as (evs & pg' & Heq & Hd & Ht & _ & _).
  destruct (for_range_events h (Z.to_nat MAX_SCROLLS) 0 initial_state w pg Hpg)
    as (r & pages' & Hev).
  exists pg'. split; [|split; assumption].
  rewrite Heq. unfold load_everything, load_everything_loop, bind in Heq.
  rewrite Hev in Heq. unfold ret in Heq.
  apply (f_equal snd) in Heq. apply (f_equal w_trace) in Heq.
  cbn [snd w_trace] in Heq. apply app_inv_tail in Heq.
  rewrite <- Heq. reflexivity.
Qed.




(** X4. A call of [load_everything] on an open page returns normally and
    touches nothing but that page: the page stays open on the same
    document, every other page and the next handle are as before, and
    no page is opened or closed and nothing is written meanwhile. *)
Theorem load_everything_frame ctx w pg :
  w_pages w !! ctx = Some pg ->
  exists w' pg',
    load_everything ctx w = (Ret tt, w')
    /\ w_next w' = w_next w
    /\ w_pages w' !! ctx = Some pg'
    /\ pg_doc pg' = pg_doc pg
    /\ (forall h, h <> ctx -> w_pages w' !! h = w_pages w !! h)
    /\ open_handles (w_trace w') = open_handles (w_trace w)
    /\ List.filter is_output (w_trace w')
       = List.filter is_output (w_trace w).
Proof.
  intros Hpg.
  destruct (load_everything_eq ctx w pg Hpg)
    as (evs & pg' & Heq & Hd & _ & Hon & _).
  eexists. exists pg'. split; [exact Heq|]. cbn [w_trace w_pages w_next].
  split; [reflexivity|]. split; [apply lookup_insert_eq|].
  split; [exact Hd|]. split.
  - intros h Hne. apply lookup_insert_ne. congruence.
  - split.
    + apply (open_handles_on_page ctx). exact Hon.
    + rewrite List.filter_app.
      rewrite (filter_on_page _ ctx _ (on_page_not_output ctx) Hon).
      reflexivity.
Qed.


End LoopEvents.

Lemma load_everything_frame_witness :
  exists w' pg',
    load_everything 0 (showing page_B) = (Ret tt, w')
    /\ w_next w' = 1%nat
    /\ w_pages w' !! 0%nat = Some pg'
    /\ pg_doc pg' = page_B.
Proof.
  destruct (load_everything_frame 0 (showing page_B) (loaded page_B))
    as (w' & pg' & Heq & Hn & Hp & Hd & _).
  - reflexivity.
  - exists w', pg'. auto.
Defined.


(** ** More on the run *)


Section RunExtras.
Context {date sheet : Type}.
Variable TODAY : date.
Variable clean_rows : list (Row date) -> sheet.
Variable web : pystr -> document.
Implicit Types (w : world date sheet) (h : handle) (url : pystr)
  (urls : list pystr) (rows : list (Row date)).

Lemma first_failure_none urls :
  first_failure web urls = None <->
  Forall (fun u => reaches_loop (web u)) urls.
Proof.
  induction urls as [|url urls IH]; cbn.
  - split; [constructor | reflexivity].
  - destruct (url_fate (web url)) as [|e] eqn:Hfate.
    + destruct (first_failure web urls) as [[k e]|].
      * split; [discriminate|]. intros H. inversion H as [|? ? _ Hrest]; subst.
        apply IH in Hrest. discriminate.
      * split; [|reflexivity]. intros _. constructor.
        -- apply completes_reaches_loop, Hfate.
        -- apply IH. reflexivity.
    + split; [discriminate|]. intros H. inversion H as [|? ? Hu _]; subst.
      rewrite (reaches_loop_completes _ Hu) in Hfate. discriminate.
Qed.

Lemma for_each_app {A S} (l1 l2 : list A) (body : A -> S -> M S) s w :
  for_each (date:=date) (sheet:=sheet) (l1 ++ l2) body s w =
    match for_each l1 body s w with
    | (Ret s', w') => for_each l2 body s' w'
    | (Raise e, w') => (Raise e, w')
    end.
Proof.
  revert s w. induction l1 as [|x l1 IH]; intros s w; cbn; [reflexivity|].
  unfold bind. destruct (body x s w) as [[s'|e] w']; [apply IH | reflexivity].
Qed.

(** A visit that reaches the loop does exactly [visit_events]. *)
Lemma scrape_url_exact url rows w :
  w_pages w = ∅ ->
  reaches_loop (web url) ->
  scrape_url TODAY web url rows w =
    (Ret (rows ++ url_rows TODAY web url),
     {| w_trace := visit_events web (w_next w) url ++ w_trace w;
        w_pages := ∅;
        w_next := S (w_next w) |}).
Proof.
  intros Hempty (Hl & Hr & Hz).
  assert (Hz' : (Z.of_nat (doc_items (web url) 0) =? 0) = false)
    by (apply Z.eqb_neq; lia).
  unfold scrape_url, goto, wait_for_selector, count, probe_container,
    all_inner_texts, close, print, sys_exit, bind, get_page, emit, set_page,
    ret, raise, new_page.
  cbn -[load_everything insert lookup delete].
  repeat (rewrite ?lookup_insert_eq, ?insert_insert_eq, ?Hl, ?Hr, ?Hz';
          cbn -[load_everything insert lookup delete]).
  match goal with
  | |- context [load_everything (w_next w) ?w1] =>
      destruct (load_everything_events (w_next w) w1
                  {| pg_doc := web url; pg_triggers := 0 |})
        as (pg' & Heq & Hd & Ht)
  end.
  { cbn -[insert lookup]. apply lookup_insert_eq. }
  rewrite Heq. cbn -[load_everything loop_events insert lookup delete].
  repeat (rewrite ?lookup_insert_eq, ?insert_insert_eq;
          cbn -[load_everything loop_events insert lookup delete]).
  rewrite delete_insert_eq, Hempty, delete_empty.
  cbn [pg_doc pg_triggers Nat.add] in Ht, Hd.
  change (measured _) with (doc_items (web url)) in Ht.
  fold (final_triggers (web url)) in Ht.
  rewrite Hd, Ht. fold (url_rows TODAY web url).
  unfold visit_events. cbn [app]. rewrite <- app_assoc. reflexivity.
Qed.

Lemma for_each_exact urls : forall rows w,
  w_pages w = ∅ ->
  Forall (fun u => reaches_loop (web u)) urls ->
  for_each urls (scrape_url TODAY web) rows w =
    (Ret (rows ++ run_rows TODAY web urls),
     {| w_trace := run_events web urls (w_next w) ++ w_trace w;
        w_pages := ∅;
        w_next := (w_next w + length urls)%nat |}).
Proof.
  induction urls as [|url urls IH]; intros rows w Hempty Hall.
  - cbn. rewrite app_nil_r, Nat.add_0_r. unfold ret.
    destruct w. cbn in *. congruence.
  - inversion Hall as [|? ? Hu Hrest]; subst.
    cbn [for_each]. unfold bind.
    rewrite (scrape_url_exact url rows w Hempty Hu).
    rewrite IH by (try reflexivity; assumption).
    cbn [w_trace w_next run_events length]. unfold run_rows. cbn [flat_map].
    rewrite <- !app_assoc.
    replace (w_next w + S (length urls))%nat
      with (S (w_next w) + length urls)%nat by lia.
    reflexivity.
Qed.

(** A run in which every URL reaches the loop does exactly [run_events],
    then writes the CSV file and pushes to the sheet. *)
Lemma scrape_exact urls :
  Forall (fun u => reaches_loop (web u)) urls ->
  scrape TODAY urls clean_rows web fresh =
    (Ret tt,
     {| w_trace :=
          EvPrint (MsgProcessed (length (run_rows TODAY web urls)))
          :: EvPushToGsheet (clean_rows (run_rows TODAY web urls))
          :: EvPrint (MsgWrote (length (run_rows TODAY web urls)))
          :: EvWriteCsv (run_rows TODAY web urls)
          :: run_events web urls 0;
        w_pages := ∅;
        w_next := length urls |}).
Proof.
  intros Hall. unfold scrape, bind.
  rewrite (for_each_exact urls [] fresh eq_refl Hall).
  cbn. rewrite app_nil_r. reflexivity.
Qed.

(** A visit whose navigation or whose wait for the list root times
    out. *)
Lemma scrape_url_times_out url rows w :
  w_pages w = ∅ ->
  doc_loads (web url) = false \/ doc_root_attaches (web url) = false ->
  exists pg,
    scrape_url TODAY web url rows w =
      (Raise PWTimeout,
       {| w_trace :=
            (if doc_loads (web url)
             then [EvWaitForSelector (w_next w) 15000] else [])
            ++ EvGoto (w_next w) url 70000
            :: EvNewPage (w_next w) :: w_trace w;
          w_pages := {[ w_next w := pg ]};
          w_next := S (w_next w) |}).
Proof.
  intros Hempty Hfail.
  unfold scrape_url, goto, wait_for_selector, count, probe_container,
    all_inner_texts, close, print, sys_exit, bind, get_page, emit, set_page,
    ret, raise, new_page.
  cbn -[load_everything insert lookup delete].
  destruct (doc_loads (web url)) eqn:Hl.
  - destruct Hfail as [Hf|Hr]; [discriminate|].
    repeat (rewrite ?lookup_insert_eq, ?insert_insert_eq, ?Hr;
            cbn -[load_everything insert lookup delete]).
    rewrite Hempty, insert_empty. eexists. reflexivity.
  - repeat (rewrite ?lookup_insert_eq, ?insert_insert_eq;
            cbn -[load_everything insert lookup delete]).
    rewrite Hempty, insert_empty. eexists. reflexivity.
Qed.

End RunExtras.

Section RunProperties.
Context {date sheet : Type}.
Variable TODAY : date.
Variable clean_rows : list (Row date) -> sheet.
Variable web : pystr -> document.
Implicit Types (w : world date sheet) (h : handle) (url : pystr)
  (urls : list pystr) (rows : list (Row date))
  (tr : list (event date sheet)).

Lemma loop_events_on_page h n : forall pg st,
  forallb (on_page h)
    (loop_events (date:=date) (sheet:=sheet) h pg n st) = true.
Proof.
  induction n as [|n IH]; intros pg st; cbn [loop_events]; [reflexivity|].
  destruct (progress _ st) as [st'|st'].
  - rewrite forallb_app, IH. apply iteration_events_on_page.
  - apply iteration_events_on_page.
Qed.

Lemma gotos_app tr1 tr2 : gotos (tr1 ++ tr2) = gotos tr1 ++ gotos tr2.
Proof.
  induction tr1 as [|e tr1 IH]; [reflexivity|].
  destruct e; cbn; rewrite ?IH; reflexivity.
Qed.

Lemma iteration_events_gotos h pg st :
  gotos (iteration_events (date:=date) (sheet:=sheet) h pg st) = [].
Proof.
  unfold iteration_events, progress_events, waiter_events.
  destruct (doc_loader _ _), (_ =? _); try destruct (_ >=? _); reflexivity.
Qed.

Lemma loop_events_gotos h n : forall pg st,
  gotos (loop_events (date:=date) (sheet:=sheet) h pg n st) = [].
Proof.
  induction n as [|n IH]; intros pg st; cbn [loop_events]; [reflexivity|].
  destruct (progress _ st) as [st'|st'].
  - rewrite gotos_app, IH. apply iteration_events_gotos.
  - apply iteration_events_gotos.
Qed.

Lemma visit_events_gotos h url :
  gotos (visit_events (date:=date) (sheet:=sheet) web h url) = [(h, url)].
Proof.
  unfold visit_events. cbv zeta.
  rewrite !gotos_app, loop_events_gotos. reflexivity.
Qed.

Lemma run_events_gotos urls : forall h,
  gotos (run_events (date:=date) (sheet:=sheet) web urls h)
  = rev (combine (seq h (length urls)) urls).
Proof.
  induction urls as [|url urls IH]; intros h; cbn [run_events]; [reflexivity|].
  rewrite gotos_app, IH, visit_events_gotos. reflexivity.
Qed.

Lemma visit_events_quiet h url :
  List.filter is_output
    (visit_events (date:=date) (sheet:=sheet) web h url) = [].
Proof.
  unfold visit_events. cbv zeta.
  rewrite !List.filter_app.
  rewrite (filter_on_page _ h _ (on_page_not_output h)
             (loop_events_on_page h _ _ _)).
  reflexivity.
Qed.

Lemma run_events_quiet urls : forall h,
  List.filter is_output
    (run_events (date:=date) (sheet:=sheet) web urls h) = [].
Proof.
  induction urls as [|url urls IH]; intros h; cbn [run_events]; [reflexivity|].
  rewrite List.filter_app, IH, visit_events_quiet. reflexivity.
Qed.

Lemma run_rows_in urls (row : Row date) :
  In row (run_rows TODAY web urls) ->
  exists url name,
    row = (url, name, TODAY) /\ In url urls
    /\ In name (doc_texts (web url) (final_triggers (web url))).
Proof.
  unfold run_rows. intros (url & Hurl & Hrow)%in_flat_map.
  unfold url_rows in Hrow. apply in_map_iff in Hrow as (name & <- & Hname).
  eauto.
Qed.

Lemma run_rows_length urls :
  length (run_rows TODAY web urls)
  = list_sum (map (fun u => length (doc_texts (web u) (final_triggers (web u))))
                  urls).
Proof.
  unfold run_rows. induction urls as [|url urls IH]; cbn; [reflexivity|].
  rewrite length_app, IH. unfold url_rows. rewrite length_map. reflexivity.
Qed.

(** X6. A worklist with a URL that does not reach the loop gives no
    output. The run raises, with the exception of the first such URL, and
    has neither written the CSV file nor pushed to the sheet: the rows of
    the URLs visited before it are lost. *)
Theorem failed_target_leaves_no_output urls :
  (~ Forall (fun u => reaches_loop (web u)) urls ->
   exists e,
     fst (scrape TODAY urls clean_rows web fresh) = Raise e
     /\ List.filter is_output
          (w_trace (snd (scrape TODAY urls clean_rows web fresh))) = []
     /\ csv_written (w_trace (snd (scrape TODAY urls clean_rows web fresh)))
        = None)
  /\ (forall pre url post,
        urls = pre ++ url :: post ->
        Forall (fun u => reaches_loop (web u)) pre ->
        ~ reaches_loop (web url) ->
        exists e,
          url_fate (web url) = Fails e
          /\ fst (scrape TODAY urls clean_rows web fresh) = Raise e
          /\ List.filter is_output
               (w_trace (snd (scrape TODAY urls clean_rows web fresh))) = []).
Proof.
  split.
  - intros Hnot. pose proof (scrape_run TODAY clean_rows web urls) as H.
    destruct (first_failure web urls) as [[k e]|] eqn:Hff.
    + destruct H as (w' & -> & Hst). exists e. split; [reflexivity|].
      cbn [snd]. split; [apply (stuck_quiet _ _ _ Hst)|].
      apply csv_written_no_output, (stuck_quiet _ _ _ Hst).
    + destruct Hnot. apply first_failure_none. exact Hff.
  - intros pre url post -> Hpre Hnot.
    destruct (not_reaches_fails _ Hnot) as (e & Hfate).
    pose proof (scrape_run TODAY clean_rows web (pre ++ url :: post)) as H.
    rewrite (first_failure_prefix web pre url post e Hpre Hfate) in H.
    destruct H as (w' & -> & Hst). exists e.
    split; [exact Hfate|]. split; [reflexivity|].
    apply (stuck_quiet _ _ _ Hst).
Qed.

(** X7. A navigation that times out, or a list root that does not attach
    in time, is not caught: the run raises [TimeoutError] right after
    that call, without the zero-items diagnostic and without having
    counted the items of that page, and writes nothing. *)
Theorem navigation_timeout_aborts pre url post :
  Forall (fun u => reaches_loop (web u)) pre ->
  doc_loads (web url) = false \/ doc_root_attaches (web url) = false ->
  exists w',
    scrape TODAY (pre ++ url :: post) clean_rows web fresh
    = (Raise PWTimeout, w')
    /\ w_trace w'
       = (if doc_loads (web url)
          then [EvWaitForSelector (length pre) 15000] else [])
         ++ EvGoto (length pre) url 70000
         :: EvNewPage (length pre)
         :: run_events web pre 0
    /\ csv_written (w_trace w') = None.
Proof.
  intros Hpre Hfail. unfold scrape, bind.
  rewrite for_each_app.
  rewrite (for_each_exact TODAY web pre [] fresh eq_refl Hpre).
  cbn [for_each]. unfold bind.
  match goal with
  | |- context [scrape_url TODAY web url ?rows ?w1] =>
      destruct (scrape_url_times_out TODAY web url rows w1 eq_refl Hfail)
        as (pg & Heq)
  end.
  rewrite Heq. eexists. split; [reflexivity|].
  cbn [w_trace w_next fresh Nat.add]. rewrite app_nil_r.
  split; [reflexivity|].
  apply csv_written_no_output.
  rewrite List.filter_app. cbn. rewrite run_events_quiet.
  destruct (doc_loads (web url)); reflexivity.
Qed.

(** X8. When every URL reaches the loop, the pages are loaded in
    worklist order, each URL once and in a page of its own: the [k]-th
    URL in the page with handle [k]. *)
Theorem visits_in_worklist_order urls :
  Forall (fun u => reaches_loop (web u)) urls ->
  rev (gotos (w_trace (snd (scrape TODAY urls clean_rows web fresh))))
  = combine (seq 0 (length urls)) urls.
Proof.
  intros Hall. rewrite (scrape_exact TODAY clean_rows web urls Hall).
  cbn. rewrite run_events_gotos. apply rev_involutive.
Qed.

(** X9. Every row of the CSV file of a completed run carries a URL of
    the worklist, a text read on that URL's page after its loop, and the
    run's [TODAY]; there are as many rows as texts were read. *)
Theorem rows_provenance urls w' :
  scrape TODAY urls clean_rows web fresh = (Ret tt, w') ->
  exists rows,
    csv_written (w_trace w') = Some rows
    /\ (forall url name day,
          In (url, name, day) rows ->
          In url urls /\ day = TODAY
          /\ In name (doc_texts (web url) (final_triggers (web url))))
    /\ length rows
       = list_sum
           (map (fun u => length (doc_texts (web u) (final_triggers (web u))))
                urls).
Proof.
  intros Hrun.
  pose proof (scrape_run TODAY clean_rows web urls) as H.
  destruct (first_failure web urls) as [[k e]|].
  - destruct H as (w1 & Heq & _). congruence.
  - destruct H as (tr & Heq & _). rewrite Heq in Hrun. injection Hrun as <-.
    exists (run_rows TODAY web urls). split; [reflexivity|]. split.
    + intros url name day Hin.
      apply run_rows_in in Hin as (url' & name' & Heq' & Hurl & Hname).
      injection Heq' as -> -> ->. auto.
    + apply run_rows_length.
Qed.

(** X10. The zero-items guard looks at ITEM_SELECTOR only: when every
    page shows items but FULL_SELECTOR yields no text on any of them, the
    run completes and writes an empty CSV file. *)
Theorem nameless_pages_give_empty_csv urls :
  Forall (fun u => reaches_loop (web u)) urls ->
  (forall u, In u urls -> doc_texts (web u) (final_triggers (web u)) = []) ->
  fst (scrape TODAY urls clean_rows web fresh) = Ret tt
  /\ csv_written (w_trace (snd (scrape TODAY urls clean_rows web fresh)))
     = Some [].
Proof.
  intros Hall Hempty. rewrite (scrape_exact TODAY clean_rows web urls Hall).
  assert (Hrows : run_rows TODAY web urls = []).
  { unfold run_rows. clear Hall.
    induction urls as [|url urls IH]; cbn; [reflexivity|].
    unfold url_rows at 1. rewrite (Hempty url) by (left; reflexivity).
    cbn. apply IH. intros u Hu. apply Hempty. right. exact Hu. }
  cbn. rewrite Hrows. auto.
Qed.

End RunProperties.

Lemma failed_target_leaves_no_output_witness :
  exists e,
    url_fate (web_ABC url_C) = Fails e
    /\ fst (scrape today [url_A; url_C; url_B] keep web_ABC (fresh : browser))
       = Raise e
    /\ List.filter is_output
         (w_trace (snd (scrape today [url_A; url_C; url_B] keep web_ABC
                               (fresh : browser)))) = [].
Proof.
  apply (proj2 (failed_target_leaves_no_output today keep web_ABC
                  [url_A; url_C; url_B]) [url_A] url_C [url_B]).
  - reflexivity.
  - repeat constructor; discriminate.
  - intros (_ & Hroot & _). vm_compute in Hroot. discriminate Hroot.
Defined.

Lemma navigation_timeout_aborts_witness :
  exists w',
    scrape today [url_A; url_C; url_B] keep web_ABC (fresh : browser)
    = (Raise PWTimeout, w')
    /\ w_trace w'
       = EvWaitForSelector 1 15000 :: EvGoto 1 url_C 70000 :: EvNewPage 1
         :: run_events web_ABC [url_A] 0
    /\ csv_written (w_trace w') = None.
Proof.
  apply (navigation_timeout_aborts today keep web_ABC [url_A] url_C [url_B]).
  - repeat constructor; discriminate.
  - right. reflexivity.
Defined.

Lemma visits_in_worklist_order_witness :
  rev (gotos (w_trace (snd (scrape today [url_A; url_B] keep web_ABC
                                   (fresh : browser)))))
  = [(0%nat, url_A); (1%nat, url_B)].
Proof.
  apply (visits_in_worklist_order today keep web_ABC [url_A; url_B]).
  repeat constructor; discriminate.
Defined.

Lemma rows_provenance_witness :
  exists rows,
    csv_written
      (w_trace (snd (scrape today [url_A; url_B] keep web_ABC
                            (fresh : browser)))) = Some rows
    /\ length rows = 5%nat.
Proof.
  destruct (rows_provenance today keep web_ABC [url_A; url_B]
              (snd (scrape today [url_A; url_B] keep web_ABC
                           (fresh : browser))))
    as (rows & Hcsv & _ & Hlen).
  - vm_compute. reflexivity.
  - exists rows. split; [exact Hcsv|]. rewrite Hlen. vm_compute. reflexivity.
Defined.

Lemma nameless_pages_give_empty_csv_witness :
  fst (scrape today [url_A; url_B] keep (fun _ => page_nameless)
              (fresh : browser)) = Ret tt
  /\ csv_written
       (w_trace (snd (scrape today [url_A; url_B] keep (fun _ => page_nameless)
                             (fresh : browser)))) = Some [].
Proof.
  apply (nameless_pages_give_empty_csv today keep (fun _ => page_nameless)
           [url_A; url_B]).
  - repeat constructor; discriminate.
  - intros u _. reflexivity.
Defined.

(** ** More on the normalisation of a name *)

Lemma lstrip_spaces s :
  exists ws, s = ws ++ lstrip s /\ forallb isspace ws = true.
Proof.
  induction s as [|c s (ws & Hs & Hws)]; cbn.
  - exists []. auto.
  - destruct (isspace c) eqn:Hc.
    + exists (c :: ws). cbn. rewrite Hc, Hws. split; [congruence | reflexivity].
    + exists []. auto.
Qed.

Lemma lstrip_nil s : lstrip s = [] <-> forallb isspace s = true.
Proof.
  induction s as [|c s IH]; cbn; [tauto|].
  destruct (isspace c); cbn; [exact IH|]. split; discriminate.
Qed.

Lemma lstrip_fixed s :
  (forall c, head s = Some c -> isspace c = false) -> lstrip s = s.
Proof.
  destruct s as [|c s]; cbn; [reflexivity|].
  intros H. rewrite (H c eq_refl). reflexivity.
Qed.

Lemma lstrip_idem s : lstrip (lstrip s) = lstrip s.
Proof. apply lstrip_fixed, lstrip_head. Qed.

Lemma rstrip_idem s : rstrip (rstrip s) = rstrip s.
Proof. unfold rstrip. rewrite rev_involutive, lstrip_idem. reflexivity. Qed.

Lemma rstrip_head s :
  (forall c, head s = Some c -> isspace c = false) ->
  forall c, head (rstrip s) = Some c -> isspace c = false.
Proof.
  destruct s as [|x t]; [cbn; discriminate|].
  intros H. pose proof (H x eq_refl) as Hx.
  change (x :: t) with ([] ++ x :: t).
  rewrite (rstrip_app_nonspace [] x t Hx). cbn. congruence.
Qed.

Lemma rstrip_no_sep sep s : ~ In sep s -> ~ In sep (rstrip s).
Proof.
  destruct (rstrip_prefix s) as (ws & Hws). intros Hnot Hin.
  apply Hnot. rewrite Hws. apply in_or_app. left. exact Hin.
Qed.

(** On a text without newline that does not start with whitespace the
    normalisation only trims the end. *)
Lemma clean_name_one_line x :
  ~ In LF x ->
  (forall c, head x = Some c -> isspace c = false) ->
  clean_name x = rstrip x.
Proof.
  intros Hnl Hhead. rewrite clean_name_take_until. unfold strip.
  rewrite (lstrip_fixed x Hhead). apply take_until_id, rstrip_no_sep, Hnl.
Qed.

Lemma clean_name_head raw :
  forall c, head (clean_name raw) = Some c -> isspace c = false.
Proof.
  intros c Hc. rewrite clean_name_take_until in Hc. apply (strip_head raw).
  destruct (strip raw) as [|x t]; [discriminate|].
  cbn in Hc. destruct (x =? LF)%N; [discriminate | exact Hc].
Qed.

Lemma clean_name_no_newline raw : ~ In LF (clean_name raw).
Proof. rewrite clean_name_take_until. apply take_until_no_sep. Qed.

(** X11. The normalised name is empty exactly when the raw text is empty
    or consists of whitespace only. *)
Theorem clean_name_empty_iff_blank raw :
  clean_name raw = [] <-> forallb isspace raw = true.
Proof.
  split.
  - intros Hempty. rewrite clean_name_take_until in Hempty.
    pose proof (strip_head raw) as Hhead.
    destruct (strip raw) as [|c t] eqn:Hs.
    + unfold strip, rstrip in Hs.
      apply (f_equal (@rev N)) in Hs. rewrite rev_involutive in Hs.
      cbn in Hs. apply lstrip_nil in Hs.
      assert (Hall : forallb isspace (lstrip raw) = true).
      { apply forallb_forall. intros x Hx.
        apply (proj1 (forallb_forall _ _) Hs). apply in_rev in Hx. exact Hx. }
      pose proof (lstrip_head raw) as Hl.
      destruct (lstrip raw) as [|x u] eqn:Hlr; [apply lstrip_nil, Hlr|].
      cbn in Hall. rewrite (Hl x eq_refl) in Hall. discriminate.
    + cbn in Hempty. destruct (N.eqb_spec c LF) as [->|_]; [|discriminate].
      specialize (Hhead LF eq_refl). discriminate.
  - intros Hall. apply lstrip_nil in Hall.
    unfold clean_name, strip. rewrite Hall. reflexivity.
Qed.

(** X12. Normalising a normalised name trims its end and changes nothing
    else, and a third pass changes nothing at all; one pass is not always
    enough. *)
Theorem clean_name_twice raw :
  clean_name (clean_name raw) = rstrip (clean_name raw)
  /\ clean_name (clean_name (clean_name raw)) = clean_name (clean_name raw)
  /\ exists raw', clean_name (clean_name raw') <> clean_name raw'.
Proof.
  assert (Htwice : clean_name (clean_name raw) = rstrip (clean_name raw))
    by (apply clean_name_one_line;
        [apply clean_name_no_newline | apply clean_name_head]).
  split; [exact Htwice|]. split.
  - rewrite Htwice. rewrite clean_name_one_line.
    + apply rstrip_idem.
    + apply rstrip_no_sep, clean_name_no_newline.
    + apply rstrip_head, clean_name_head.
  - exists acme_padded. vm_compute. discriminate.
Qed.

(** Trimming leaves alone a line that neither starts nor ends with
    whitespace, whatever follows it. *)
Lemma strip_tidy_line line a z t :
  head line = Some a -> last line = Some z ->
  isspace a = false -> isspace z = false ->
  strip (line ++ t) = line ++ rstrip t.
Proof.
  intros Hhead Hlast Ha Hz. unfold strip.
  rewrite (lstrip_fixed (line ++ t)).
  - apply last_Some in Hlast as (init & ->).
    rewrite <- app_assoc. cbn [app].
    rewrite (rstrip_app_nonspace _ _ _ Hz), <- app_assoc. reflexivity.
  - intros c. destruct line as [|x line]; [discriminate|].
    cbn in *. congruence.
Qed.

(** X13. When the raw text starts with a non-empty line that neither
    starts nor ends with whitespace, a line of one character included,
    followed by nothing or by a newline and anything, the normalisation
    returns that line, and so does splitting before trimming. *)
Theorem clean_name_first_line line a z rest tail :
  head line = Some a -> last line = Some z ->
  isspace a = false -> isspace z = false ->
  ~ In LF line ->
  tail = [] \/ tail = LF :: rest ->
  clean_name (line ++ tail) = line
  /\ normalize_spec (line ++ tail) = line.
Proof.
  intros Hhead Hlast Ha Hz Hnl Htail.
  pose proof (strip_tidy_line line a z [] Hhead Hlast Ha Hz) as Hline.
  rewrite app_nil_r in Hline. change (rstrip []) with (@nil N) in Hline.
  rewrite app_nil_r in Hline.
  rewrite clean_name_take_until, normalize_spec_take_until.
  rewrite (strip_tidy_line line a z tail Hhead Hlast Ha Hz).
  destruct Htail as [->| ->].
  - rewrite app_nil_r. change (rstrip []) with (@nil N). rewrite app_nil_r.
    rewrite (take_until_id _ _ Hnl). auto.
  - rewrite (take_until_app_sep _ _ _ Hnl). split; [|exact Hline].
    destruct (rstrip_prefix (LF :: rest)) as (ws & Hws).
    destruct (rstrip (LF :: rest)) as [|c t].
    + rewrite app_nil_r. apply take_until_id, Hnl.
    + cbn in Hws. injection Hws as <- _. apply take_until_app_sep, Hnl.
Qed.

(** X14. The normalised name is a contiguous piece of the raw text: only
    whitespace is dropped in front of it. *)
Theorem clean_name_infix raw :
  exists before after,
    raw = before ++ clean_name raw ++ after
    /\ forallb isspace before = true.
Proof.
  destruct (lstrip_spaces raw) as (ws & Hraw & Hws).
  destruct (rstrip_prefix (lstrip raw)) as (ws' & Hl).
  destruct (take_until_prefix LF (strip raw)) as (rest & Hs & _).
  exists ws, (rest ++ ws'). split; [|exact Hws].
  rewrite clean_name_take_until.
  rewrite (app_assoc (take_until LF (strip raw)) rest ws'), <- Hs.
  unfold strip. rewrite <- Hl. exact Hraw.
Qed.


Lemma clean_name_empty_iff_blank_witness :
  clean_name (of_string "  " ++ [LF; 9%N; 160%N]) = [].
Proof.
  apply (clean_name_empty_iff_blank (of_string "  " ++ [LF; 9%N; 160%N])).
  reflexivity.
Defined.

(** X13 on a name of one character, then on [acme_raw]. *)
Lemma clean_name_first_line_witness :
  (clean_name (of_string "A" ++ [LF] ++ of_string "Following") = of_string "A"
   /\ normalize_spec (of_string "A" ++ [LF] ++ of_string "Following")
      = of_string "A")
  /\ (clean_name acme_raw = of_string "Acme Corp"
      /\ normalize_spec acme_raw = of_string "Acme Corp").
Proof.
  split.
  - apply (clean_name_first_line (of_string "A") 65%N 65%N
             (of_string "Following") (LF :: of_string "Following")).
    + reflexivity.
    + reflexivity.
    + reflexivity.
    + reflexivity.
    + vm_compute. intros H. repeat (destruct H as [H|H]; [discriminate H|]).
      exact H.
    + right. reflexivity.
  - apply (clean_name_first_line (of_string "Acme Corp") 65%N 112%N
             (of_string "Following") (LF :: of_string "Following")).
    + reflexivity.
    + reflexivity.
    + reflexivity.
    + reflexivity.
    + vm_compute. intros H. repeat (destruct H as [H|H]; [discriminate H|]).
      exact H.
    + right. reflexivity.
Defined.

(** ** The scripts evaluated in the page *)

Section DomProperties.
Import Dom.
Implicit Types (doc : dom) (el box row : element).

Lemma element_parent_ind (P : element -> Prop) :
  (forall el,
      (forall parent, el_parentElement el = Some parent -> P parent) -> P el) ->
  forall el, P el.
Proof.
  intros H. fix IH 1. intros [n i c o sh ch [q|]]; apply H; cbn.
  - intros parent Heq. injection Heq as <-. apply IH.
  - discriminate.
Qed.

Lemma findScrollable_eq doc el :
  findScrollable doc el =
    if Nat.eqb (el_node el) (documentElement doc) then scrollingElement doc
    else if can_scroll el then Some el
    else match el_parentElement el with
         | Some parent => findScrollable doc parent
         | None => scrollingElement doc
         end.
Proof. destruct el. reflexivity. Qed.

Lemma probe_from_eq doc el :
  probe_from doc el =
    if Nat.eqb (el_node el) (documentElement doc) then of_string "document"
    else if can_scroll el then display_name el
    else match el_parentElement el with
         | Some parent => probe_from doc parent
         | None => of_string "document"
         end.
Proof. destruct el. reflexivity. Qed.

Lemma chain_eq doc el :
  chain doc el =
    if Nat.eqb (el_node el) (documentElement doc) then []
    else el :: match el_parentElement el with
               | Some parent => chain doc parent
               | None => []
               end.
Proof. destruct el. reflexivity. Qed.

(** Both walks stop at the first element of the chain that can scroll. *)
Lemma walks_agree doc el :
  match List.find can_scroll (chain doc el) with
  | Some box =>
      findScrollable doc el = Some box
      /\ probe_from doc el = display_name box
  | None =>
      findScrollable doc el = scrollingElement doc
      /\ probe_from doc el = of_string "document"
  end.
Proof.
  induction el as [el IH] using element_parent_ind.
  rewrite findScrollable_eq, probe_from_eq, chain_eq.
  destruct (Nat.eqb (el_node el) (documentElement doc)); [cbn; auto|].
  cbn [List.find]. destruct (can_scroll el); [auto|].
  destruct (el_parentElement el) as [parent|]; [|cbn; auto].
  apply IH. reflexivity.
Qed.

Lemma find_first {A} (f : A -> bool) (l : list A) x :
  List.find f l = Some x ->
  exists near far,
    l = near ++ x :: far /\ f x = true /\ Forall (fun y => f y = false) near.
Proof.
  induction l as [|a l IH]; cbn; [discriminate|].
  destruct (f a) eqn:Ha.
  - intros [= <-]. exists [], l. auto.
  - intros (near & far & -> & Hx & Hnear)%IH.
    exists (a :: near), far. auto.
Qed.

Lemma find_nothing {A} (f : A -> bool) (l : list A) :
  List.find f l = None <-> Forall (fun y => f y = false) l.
Proof.
  induction l as [|a l IH]; cbn.
  - split; [constructor | reflexivity].
  - destruct (f a) eqn:Ha.
    + split; [discriminate|]. intros H. inversion H. congruence.
    + rewrite IH. split; [constructor; assumption|].
      intros H. inversion H. assumption.
Qed.

Lemma display_name_nonempty el : display_name el <> [].
Proof.
  unfold display_name, js_or.
  destruct (el_className el); [destruct (el_id el)|]; discriminate.
Qed.

Lemma find_nearest {A} (f : A -> bool) (near : list A) x far :
  f x = true -> Forall (fun y => f y = false) near ->
  List.find f (near ++ x :: far) = Some x.
Proof.
  intros Hx Hnear. induction Hnear as [|y near Hy _ IH]; cbn.
  - rewrite Hx. reflexivity.
  - rewrite Hy. exact IH.
Qed.

(** X15. The scroll box of the trigger is the nearest element, from the
    first row upwards and below the document element, that overflows
    vertically ([auto] or [scroll]) and is higher than its viewport: the
    walk returns that element whenever there is one, and the jump of one
    viewport is then shorter than its content. When there is none the
    walk returns the document's scrolling element. The walk returns
    nothing else. *)
Theorem findScrollable_nearest doc el :
  (forall near box far,
      chain doc el = near ++ box :: far ->
      can_scroll box = true ->
      Forall (fun x => can_scroll x = false) near ->
      findScrollable doc el = Some box
      /\ el_clientHeight box < el_scrollHeight box)
  /\ (Forall (fun x => can_scroll x = false) (chain doc el) ->
      findScrollable doc el = scrollingElement doc)
  /\ (forall box,
        findScrollable doc el = Some box ->
        (exists near far,
            chain doc el = near ++ box :: far
            /\ can_scroll box = true
            /\ Forall (fun x => can_scroll x = false) near
            /\ el_clientHeight box < el_scrollHeight box)
        \/ (Forall (fun x => can_scroll x = false) (chain doc el)
            /\ scrollingElement doc = Some box)).
Proof.
  assert (Hhigher : forall box,
             can_scroll box = true -> el_clientHeight box < el_scrollHeight box).
  { intros box Hcan. unfold can_scroll in Hcan.
    destruct (el_overflowY box); try discriminate; lia. }
  pose proof (walks_agree doc el) as H.
  split; [|split].
  - intros near box far Hchain Hcan Hnear.
    rewrite Hchain, (find_nearest _ near box far Hcan Hnear) in H.
    destruct H as [Hb _]. split; [exact Hb | apply Hhigher, Hcan].
  - intros Hnone. apply find_nothing in Hnone. rewrite Hnone in H.
    apply H.
  - intros box Hfind.
    destruct (List.find can_scroll (chain doc el)) as [b|] eqn:Hf.
    + destruct H as [Hb _]. rewrite Hfind in Hb. injection Hb as <-.
      left. destruct (find_first _ _ _ Hf) as (near & far & Hc & Hcan & Hnear).
      exists near, far. repeat split; try assumption. apply Hhigher, Hcan.
    + destruct H as [Hb _]. right. split; [apply find_nothing, Hf|].
      congruence.
Qed.

(** X16. The probe of [scrape] names the element the trigger of
    [load_everything] scrolls: on the same document both start from the
    same row and stop at the same element. When that is an element of the
    chain the probe answers its display name, and when the trigger falls
    back to the scrolling element the probe answers ["document"]. *)
Theorem probe_names_scroll_box doc row :
  querySelector_row doc = Some row ->
  match List.find can_scroll (chain doc row) with
  | Some box =>
      scroll_trigger doc = ScrollBy box (el_clientHeight box)
      /\ probe doc = Some (display_name box)
  | None =>
      probe doc = Some (of_string "document")
      /\ scroll_trigger doc
         = match scrollingElement doc with
           | Some root => ScrollBy root (el_clientHeight root)
           | None => TypeError
           end
  end.
Proof.
  intros Hrow. unfold scroll_trigger, probe. rewrite Hrow.
  pose proof (walks_agree doc row) as H.
  destruct (List.find can_scroll (chain doc row)) as [box|];
    destruct H as [-> ->]; auto.
Qed.

(** X17. The probe answers [null] exactly when no element has an id that
    starts with [profilePagedListComponent], which is exactly when the
    trigger does nothing; any other answer is a non-empty name. *)
Theorem probe_null_iff_no_row doc :
  (probe doc = None <->
   Forall (fun el => starts_with (of_string "profilePagedListComponent")
                                 (el_id el) = false) (elements doc))
  /\ (probe doc = None <-> scroll_trigger doc = NoRow)
  /\ (forall name, probe doc = Some name -> name <> []).
Proof.
  unfold probe, scroll_trigger.
  rewrite <- find_nothing. fold (querySelector_row doc).
  destruct (querySelector_row doc) as [row|].
  - split; [split; discriminate|]. split.
    + split; [discriminate|]. destruct (findScrollable doc row); discriminate.
    + intros name [= <-]. pose proof (walks_agree doc row) as H.
      destruct (List.find can_scroll (chain doc row)) as [box|];
        destruct H as [_ ->]; [apply display_name_nonempty | discriminate].
  - repeat split; discriminate.
Qed.

End DomProperties.

(** X15 on the profile page: the row and its section cannot scroll, the
    [main] element above them can. *)
Lemma findScrollable_nearest_witness :
  Dom.findScrollable profile_dom el_row = Some el_main
  /\ Dom.el_clientHeight el_main < Dom.el_scrollHeight el_main.
Proof.
  apply (proj1 (findScrollable_nearest profile_dom el_row)
           [el_row; el_section] el_main [el_body]).
  - reflexivity.
  - reflexivity.
  - repeat constructor.
Defined.

Lemma probe_names_scroll_box_witness :
  Dom.scroll_trigger profile_dom = Dom.ScrollBy el_main 800
  /\ Dom.probe profile_dom
     = Some (of_string "scaffold-finite-scroll__content").
Proof.
  apply (probe_names_scroll_box profile_dom el_row). reflexivity.
Defined.

Lemma probe_null_iff_no_row_witness :
  Dom.probe {| Dom.documentElement := 0; Dom.scrollingElement := Some el_html;
               Dom.elements := [el_html; el_body; el_main] |} = None.
Proof.
  apply (proj1 (probe_null_iff_no_row
                  {| Dom.documentElement := 0;
                     Dom.scrollingElement := Some el_html;
                     Dom.elements := [el_html; el_body; el_main] |})).
  repeat constructor.
Defined.
